(** * The league bot of [bot.py]: rating engine, reports, seasons

    A shallow embedding of the database-facing logic of [bot.py], on the
    database [elo_bot.db] as [init_db] creates it.

    - The SQLite tables are lists of rows in rowid order.  The rowid of a
      table is its INTEGER PRIMARY KEY, so the rows of [players] stand by
      ascending [id].  The columns of each table are those of its
      [CREATE TABLE] in [init_db], listed below as [players_columns],
      [pending_reps_columns], [seasons_columns] and [pairings_columns].
    - A statement that names a column its table does not have
      ([opponent_id] and [reporter_result] of [pending_reps], [game_number]
      of [pairings]) raises [sqlite3.OperationalError] when it is executed,
      whatever the rows: [execute] checks the names against the table.  A
      row record has a field for every column some statement names, an
      [option] for a nullable column; the field of a column the table does
      not have is [None] in every row a command writes.
    - A command is a function from the store (and its arguments) to the new
      store and the reply it sends.  An exception ends the command:
      [report_match] answers with the error text, from
      [cancel_pending_match] it reaches [on_command_error], which prints it.
      The channel check and the Discord side (mentions, embeds, roles) are
      left out: they do not touch the tables.
    - Ratings are floating-point numbers in Python.  [Module Elo] reads them
      as real numbers, with [math.pow] as [Rpower]; the store keeps them as
      rationals and takes the rating engine as a function.
    - A Python string is a sequence of code points.  The results ['w'],
      ['l'], ['d'] are compared as byte strings; the arguments of
      [show_leaderboard] are lists of code points, and what the Unicode
      database says of a code point is taken as given. *)

From Stdlib Require Import ZArith QArith List String Ascii Bool Lia.
From Stdlib Require Import Permutation Sorted.
From Stdlib Require Import Reals Lra Qreals.
From Stdlib Require DecimalString.
Import ListNotations.

(** ** The rating engine over the reals *)

Module Elo.
Local Open Scope R_scope.

Definition K_FACTOR : R := 25.

(** [get_expected_score(a, b) = 1 / (1 + math.pow(10, (b - a) / 400))] *)
Definition get_expected_score (a b : R) : R :=
  1 / (1 + Rpower 10 ((b - a) / 400)).

(** [update_elo(winner_elo, loser_elo, draw=False)] *)
Definition update_elo (winner_elo loser_elo : R) (draw : bool) : R * R :=
  if draw then
    let expected_winner := get_expected_score winner_elo loser_elo in
    let expected_loser := get_expected_score loser_elo winner_elo in
    let new_winner_elo := winner_elo + K_FACTOR * (/ 2 - expected_winner) in
    let new_loser_elo := loser_elo + K_FACTOR * (/ 2 - expected_loser) in
    (new_winner_elo, new_loser_elo)
  else
    let expected := get_expected_score winner_elo loser_elo in
    let new_winner_elo := winner_elo + K_FACTOR * (1 - expected) in
    let new_loser_elo := loser_elo + K_FACTOR * (0 - (1 - expected)) in
    (new_winner_elo, new_loser_elo).

End Elo.

(** ** The tables *)

Local Open Scope Z_scope.

(** A report's claim: the text ['w'], ['l'] or ['d'] that [report_match] and
    [cancel_pending_match] accept once lowercased. *)
Inductive Res := ResW | ResL | ResD.

Definition Res_eqb (a b : Res) : bool :=
  match a, b with
  | ResW, ResW | ResL, ResL | ResD, ResD => true
  | _, _ => false
  end.

(** [players (id, elo, wins, losses, draws, signed_up)] *)
Record Player := mkPlayer {
  pl_id : Z;
  pl_elo : Q;
  pl_wins : Z;
  pl_losses : Z;
  pl_draws : Z;
  pl_signed_up : bool
}.

(** A row of [pending_reps].  The table has [id], [pairing_id],
    [reporter_id], [result], [game_number] and [timestamp]; [opponent_id]
    and [reporter_result] are named by [add_pending_rep] and
    [get_pending_rep] only. *)
Record PendingRep := mkPendingRep {
  pr_id : Z;
  pr_pairing_id : option Z;
  pr_reporter_id : option Z;
  pr_opponent_id : option Z;
  pr_result : option Res;
  pr_reporter_result : option Res;
  pr_game_number : option Z;
  pr_timestamp : Z
}.

(** [seasons (season_number, active)] *)
Record Season := mkSeason {
  se_season_number : Z;
  se_active : bool
}.

(** A row of [pairings].  The table has no [game_number]; the statements of
    the season path name it. *)
Record Pairing := mkPairing {
  pa_id : Z;
  pa_player1_id : Z;
  pa_player2_id : Z;
  pa_result1 : option Q;
  pa_result2 : option Q;
  pa_season_number : Z;
  pa_group_name : string;
  pa_game_number : option Z
}.

(** The database [elo_bot.db].  The two counters are the AUTOINCREMENT
    sequences of [pending_reps] and [pairings]. *)
Record Store := mkStore {
  players : list Player;
  pending_reps : list PendingRep;
  pending_seq : Z;
  seasons : list Season;
  pairings : list Pairing;
  pairings_seq : Z
}.

(** The clocks a command reads: SQLite's [CURRENT_TIMESTAMP] (UTC) stamps a
    new pending report, Python's [datetime.now()] (local time) gives the
    cutoff.  Both count seconds. *)
Record Clock := mkClock {
  utc_now : Z;
  local_now : Z
}.

Definition set_players (s : Store) (ps : list Player) : Store :=
  mkStore ps (pending_reps s) (pending_seq s) (seasons s) (pairings s)
    (pairings_seq s).

Definition set_pending_reps (s : Store) (rs : list PendingRep) : Store :=
  mkStore (players s) rs (pending_seq s) (seasons s) (pairings s)
    (pairings_seq s).

Definition set_seasons (s : Store) (ss : list Season) : Store :=
  mkStore (players s) (pending_reps s) (pending_seq s) ss (pairings s)
    (pairings_seq s).

Definition set_pairings (s : Store) (ps : list Pairing) : Store :=
  mkStore (players s) (pending_reps s) (pending_seq s) (seasons s) ps
    (pairings_seq s).

(** [init_db] on a new file: no rows but season 1, inactive. *)
Definition init_db : Store :=
  mkStore [] [] 0 [mkSeason 1 false] [] 0.

(** ** SQL helpers *)

(** The columns of the four tables, in the order of their [CREATE TABLE]. *)
Definition players_columns : list string :=
  ["id"; "elo"; "wins"; "losses"; "draws"; "signed_up"]%string.

Definition pending_reps_columns : list string :=
  ["id"; "pairing_id"; "reporter_id"; "result"; "game_number";
   "timestamp"]%string.

Definition seasons_columns : list string :=
  ["season_number"; "active"]%string.

Definition pairings_columns : list string :=
  ["id"; "player1_id"; "player2_id"; "result1"; "result2"; "season_number";
   "group_name"]%string.

(** What a command may raise: [sqlite3.OperationalError] for a column the
    table does not have, and the [ValueError] of [int]. *)
Inductive Error :=
| OperationalError (column : string)
| ValueError.

(** What a call gives: its value, or the exception it raises. *)
Inductive Outcome (A : Type) :=
| Return (a : A)
| Raise (e : Error).

Arguments Return {A} a.
Arguments Raise {A} e.

(** The first of the [named] columns that the table does not have. *)
Definition missing_column (table named : list string) : option string :=
  find (fun c => negb (existsb (String.eqb c) table)) named.

(** [c.execute] of a statement that names the columns [named] of a table:
    [run] is what the statement does when the table has them all. *)
Definition execute {A : Type} (table named : list string) (run : A)
    : Outcome A :=
  match missing_column table named with
  | Some c => Raise (OperationalError c)
  | None => Return run
  end.

(** [column = ?] on a nullable column: NULL equals nothing. *)
Definition col_eqb (c : option Z) (v : Z) : bool :=
  match c with
  | Some x => x =? v
  | None => false
  end.

Section Sorting.
Context {A : Type} (before : A -> A -> bool).

(** [insert_sorted x l] puts [x] in front of the first row it may stand
    before; rows that compare equal keep their order. *)
Fixpoint insert_sorted (x : A) (l : list A) : list A :=
  match l with
  | [] => [x]
  | y :: t => if before x y then x :: y :: t else y :: insert_sorted x t
  end.

Definition sort_by (l : list A) : list A :=
  fold_right insert_sorted [] l.

End Sorting.

(** ** Players *)

(** [get_player_data]: [SELECT * FROM players WHERE id=?], first row. *)
Definition get_player_data (s : Store) (player_id : Z) : option Player :=
  find (fun p => pl_id p =? player_id) (players s).

(** [update_player_stats]: sets the rating and adds to the three tallies of
    every row with this id. *)
Definition update_player_stats (s : Store) (player_id : Z) (elo : Q)
    (wins losses draws : Z) : Store :=
  set_players s
    (map (fun p =>
            if pl_id p =? player_id then
              mkPlayer (pl_id p) elo (pl_wins p + wins) (pl_losses p + losses)
                (pl_draws p + draws) (pl_signed_up p)
            else p)
         (players s)).

Definition INITIAL_ELO : Q := inject_Z 1380.

(** ** Pending reports *)

(** The cutoff of [get_pending_rep] and of the cleanup task:
    [datetime.now() - timedelta(minutes=30)]. *)
Definition cutoff_time (clk : Clock) : Z := local_now clk - 1800.

(** The WHERE clause of [get_pending_rep]. *)
Definition pending_rep_matches (clk : Clock) (reporter_id opponent_id : Z)
    (r : PendingRep) : bool :=
  col_eqb (pr_reporter_id r) reporter_id
  && col_eqb (pr_opponent_id r) opponent_id
  && (cutoff_time clk <=? pr_timestamp r).

(** [ORDER BY timestamp DESC LIMIT 1]: a row with the greatest timestamp,
    the first in rowid order when several share it. *)
Fixpoint latest (l : list PendingRep) : option PendingRep :=
  match l with
  | [] => None
  | r :: t =>
      match latest t with
      | None => Some r
      | Some r' => if pr_timestamp r <? pr_timestamp r' then Some r' else Some r
      end
  end.

(** [get_pending_rep]: the SELECT names [opponent_id]. *)
Definition get_pending_rep (clk : Clock) (s : Store)
    (reporter_id opponent_id : Z) : Outcome (option PendingRep) :=
  execute pending_reps_columns ["reporter_id"; "opponent_id"; "timestamp"]%string
    (latest (filter (pending_rep_matches clk reporter_id opponent_id)
               (pending_reps s))).

(** [add_pending_rep]: a new row with the next id, stamped by SQLite; the
    INSERT names [opponent_id] and [reporter_result]. *)
Definition add_pending_rep (clk : Clock) (s : Store)
    (reporter_id opponent_id : Z) (reporter_result : Res) : Outcome Store :=
  let new_id := pending_seq s + 1 in
  execute pending_reps_columns
    ["reporter_id"; "opponent_id"; "reporter_result"]%string
    (mkStore (players s)
       (pending_reps s ++
          [mkPendingRep new_id None (Some reporter_id) (Some opponent_id) None
             (Some reporter_result) None (utc_now clk)])
       new_id (seasons s) (pairings s) (pairings_seq s)).

(** [delete_pending_rep]: [DELETE FROM pending_reps WHERE id=?]. *)
Definition delete_pending_rep (s : Store) (rep_id : Z) : Store :=
  set_pending_reps s
    (filter (fun r => negb (pr_id r =? rep_id)) (pending_reps s)).

(** One round of [clean_old_pending_matches]. *)
Definition clean_old_pending_matches (clk : Clock) (s : Store) : Store :=
  set_pending_reps s
    (filter (fun r => negb (pr_timestamp r <? cutoff_time clk))
       (pending_reps s)).

(** ** Replies *)

(** What a command sends back; one constructor per message of [bot.py]. *)
Inductive Reply :=
| InvalidResult        (* Invalid result. Use 'w', 'l', or 'd'. *)
| SelfReport           (* You can't report a match with yourself! *)
| NotRegistered        (* Both players must be registered! *)
| InvalidGameNumber    (* Invalid game number. Use 1 or 2. *)
| NoPairing            (* No valid season pairing found! *)
| ResultsDontMatch     (* Results don't match! Please report the opposite result. *)
| GameConfirmed (settled : bool)
                       (* the slot is written; [settled]: Both games confirmed! Updated *)
| AlreadyReported      (* Already reported! Waiting for opponent's confirmation. *)
| GameReported         (* Reported game n! ... confirm with *)
| MatchConfirmed       (* Match confirmed! *)
| ReportOpposite       (* Results don't match! Report the opposite result. *)
| MatchReported        (* Match reported! ... confirm with *)
| NoPendingMatch       (* No pending match found against ... to cancel! *)
| ResultMismatch       (* Result doesn't match your pending match against ... *)
| Canceled             (* Successfully canceled your pending match against ... *)
| AlreadyRegistered    (* you're already registered! *)
| Registered           (* has been registered with an initial ELO of 1380 *)
| RegisterFirst        (* You need to register first *)
| SignedUp             (* has signed up for the current season! *)
| SeasonIsActive       (* Season is already active *)
| SeasonAlreadyActive  (* There's already an active season! *)
| SeasonStarted (pairings_generated : bool)
                       (* Season n has started!; the flag is what generate_pairings returned *)
| NoActiveSeason       (* No active season to end! *)
| SeasonEnded          (* Season n has ended. *)
| CommandError.        (* an exception: Error ..., or none sent *)

(** ** Parsing a claimed result *)

Definition lower_ascii (c : ascii) : ascii :=
  let n := nat_of_ascii c in
  if (65 <=? n)%nat && (n <=? 90)%nat then ascii_of_nat (n + 32) else c.

Fixpoint lower (s : string) : string :=
  match s with
  | EmptyString => EmptyString
  | String c t => String (lower_ascii c) (lower t)
  end.

(** [result = result.lower()] and [result not in ['w', 'l', 'd']]. *)
Definition parse_result (result : string) : option Res :=
  let result := lower result in
  if String.eqb result "w" then Some ResW
  else if String.eqb result "l" then Some ResL
  else if String.eqb result "d" then Some ResD
  else None.

(** [{'w': 'l', 'l': 'w', 'd': 'd'}] *)
Definition expected_result (r : Res) : Res :=
  match r with
  | ResW => ResL
  | ResL => ResW
  | ResD => ResD
  end.

(** ** Seasons *)

(** [SELECT ... FROM seasons ORDER BY season_number DESC LIMIT 1] *)
Fixpoint latest_season (l : list Season) : option Season :=
  match l with
  | [] => None
  | x :: t =>
      match latest_season t with
      | None => Some x
      | Some y =>
          if se_season_number x <? se_season_number y then Some y else Some x
      end
  end.

(** [(SELECT season_number FROM seasons WHERE active = 1)], as a scalar. *)
Definition active_season_number (s : Store) : option Z :=
  option_map se_season_number (find se_active (seasons s)).

Definition in_active_season (s : Store) (p : Pairing) : bool :=
  match active_season_number s with
  | Some n => pa_season_number p =? n
  | None => false
  end.

(** ** Season reports *)

(** The pairing lookup of the season path; the SELECT names
    [game_number]. *)
Definition find_pairing (s : Store) (author opponent game_number : Z)
    : Outcome (option Pairing) :=
  execute pairings_columns
    ["id"; "player1_id"; "player2_id"; "result1"; "result2"; "season_number";
     "game_number"]%string
    (find (fun p =>
             ((pa_player1_id p =? author) && (pa_player2_id p =? opponent)
              || (pa_player1_id p =? opponent) && (pa_player2_id p =? author))
             && in_active_season s p
             && col_eqb (pa_game_number p) game_number)
        (pairings s)).

(** [result_value], the score from player 1's side. *)
Definition result_value (result : Res) (is_player1 : bool) : Q :=
  match result with
  | ResD => 1 # 2
  | ResW => if is_player1 then 1 else 0
  | ResL => if negb is_player1 then 1 else 0
  end.

(** [SELECT reporter_id, result FROM pending_reps WHERE pairing_id = ? AND
    game_number = ?], first row; [pending_reps] has these columns. *)
Definition find_existing_rep (s : Store) (pairing_id game_number : Z)
    : option PendingRep :=
  find (fun r =>
          col_eqb (pr_pairing_id r) pairing_id
          && col_eqb (pr_game_number r) game_number)
       (pending_reps s).

(** [UPDATE pairings SET result{game_number}=? WHERE id=? AND game_number=?] *)
Definition write_result (s : Store) (game_number : Z) (value : Q)
    (pairing_id : Z) : Outcome Store :=
  execute pairings_columns
    [if game_number =? 1 then "result1"%string else "result2"%string;
     "id"%string; "game_number"%string]
  (set_pairings s
    (map (fun p =>
            if (pa_id p =? pairing_id) && col_eqb (pa_game_number p) game_number
            then
              if game_number =? 1 then
                mkPairing (pa_id p) (pa_player1_id p) (pa_player2_id p)
                  (Some value) (pa_result2 p) (pa_season_number p)
                  (pa_group_name p) (pa_game_number p)
              else
                mkPairing (pa_id p) (pa_player1_id p) (pa_player2_id p)
                  (pa_result1 p) (Some value) (pa_season_number p)
                  (pa_group_name p) (pa_game_number p)
            else p)
         (pairings s))).

(** [ORDER BY game_number]: NULL sorts first. *)
Definition game_number_before (x y : Pairing) : bool :=
  match pa_game_number x, pa_game_number y with
  | None, _ => true
  | Some _, None => false
  | Some a, Some b => a <=? b
  end.

(** The query behind [game_results]; it orders by [game_number]. *)
Definition game_results (s : Store) (p1_id p2_id : Z)
    : Outcome (list (option Q * option Q)) :=
  execute pairings_columns
    ["result1"; "result2"; "player1_id"; "player2_id"; "season_number";
     "game_number"]%string
    (map (fun p => (pa_result1 p, pa_result2 p))
       (sort_by game_number_before
          (filter (fun p =>
                     (pa_player1_id p =? p1_id) && (pa_player2_id p =? p2_id)
                     && in_active_season s p)
             (pairings s)))).

(** [sum(1 for r in games if ...)] *)
Definition count_if (f : Q -> bool) (games : list Q) : Z :=
  Z.of_nat (List.length (filter f games)).

(** [DELETE FROM pending_reps WHERE pairing_id=?] *)
Definition delete_pairing_reps (s : Store) (pairing_id : Z) : Store :=
  set_pending_reps s
    (filter (fun r => negb (col_eqb (pr_pairing_id r) pairing_id))
       (pending_reps s)).

(** The INSERT of the season path: a stamped row with the next id.  It
    names [pairing_id], [reporter_id], [result] and [game_number], which
    [pending_reps] has. *)
Definition add_season_rep (clk : Clock) (s : Store)
    (pairing_id reporter_id : Z) (result : Res) (game_number : Z) : Store :=
  let new_id := pending_seq s + 1 in
  mkStore (players s)
    (pending_reps s ++
       [mkPendingRep new_id (Some pairing_id) (Some reporter_id) None
          (Some result) None (Some game_number) (utc_now clk)])
    new_id (seasons s) (pairings s) (pairings_seq s).

(** ** The commands

    The commands are stated for any rating engine on the stored ratings:
    [update_elo] below stands for the function of that name in [bot.py]
    ([Elo.update_elo] on real numbers). *)

Section Commands.
Variable update_elo : Q -> Q -> bool -> Q * Q.

(** The rating change one game of a settled pairing asks for; the third
    argument of [update_elo] is its [draw] flag. *)
Definition game_elo (p1_elo p2_elo game : Q) : Q * Q :=
  if Qeq_bool game (1 # 2) then update_elo p1_elo p2_elo true
  else update_elo p1_elo p2_elo (Qeq_bool game 1).

(** The settlement block of [report_match], from [game1, game2 = ...] to the
    second [update_player_stats]; [None] when a player row is missing. *)
Definition settle (s : Store) (author p1_id p2_id : Z) (game1 game2 : Q)
    : option Store :=
  match get_player_data s p1_id, get_player_data s p2_id with
  | Some d1, Some d2 =>
      let p1_elo := pl_elo d1 in
      let p2_elo := pl_elo d2 in
      let '(g1_p1, g1_p2) := game_elo p1_elo p2_elo game1 in
      let '(g2_p1, g2_p2) := game_elo p1_elo p2_elo game2 in
      let final_p1 := ((g1_p1 + g2_p1) / 2)%Q in
      let final_p2 := ((g1_p2 + g2_p2) / 2)%Q in
      let p1_wins :=
        count_if (fun r => Qeq_bool r 1 && (p1_id =? author)
                           || Qeq_bool r 0 && (p2_id =? author))
          [game1; game2] in
      let p1_draws := count_if (fun r => Qeq_bool r (1 # 2)) [game1; game2] in
      let p1_losses := 2 - p1_wins - p1_draws in
      let p2_wins := 2 - p1_wins - p1_draws in
      let p2_losses := p1_wins in
      let p2_draws := p1_draws in
      let s1 := update_player_stats s p1_id final_p1 p1_wins p1_losses p1_draws in
      Some (update_player_stats s1 p2_id final_p2 p2_wins p2_losses p2_draws)
  | _, _ => None
  end.

(** The season branch of [report_match].  An exception is answered with
    its text; what was committed before it stays. *)
Definition season_report (clk : Clock) (s : Store) (author : Z) (result : Res)
    (opponent game_number : Z) : Store * Reply :=
  if negb ((game_number =? 1) || (game_number =? 2)) then (s, InvalidGameNumber)
  else
    match find_pairing s author opponent game_number with
    | Raise _ => (s, CommandError)
    | Return None => (s, NoPairing)
    | Return (Some pairing) =>
        let pairing_id := pa_id pairing in
        let p1_id := pa_player1_id pairing in
        let p2_id := pa_player2_id pairing in
        let is_player1 := author =? p1_id in
        let value := result_value result is_player1 in
        match find_existing_rep s pairing_id game_number with
        | Some existing_rep =>
            if col_eqb (pr_reporter_id existing_rep) opponent then
              match pr_result existing_rep with
              | None => (s, CommandError)
              | Some reported =>
                  if negb (Res_eqb result (expected_result reported)) then
                    (s, ResultsDontMatch)
                  else
                    match write_result s game_number value pairing_id with
                    | Raise _ => (s, CommandError)
                    | Return s1 =>
                        match game_results s1 p1_id p2_id with
                        | Raise _ => (s1, CommandError)
                        | Return [(Some game1, Some _); (Some game2, Some _)] =>
                            match settle s1 author p1_id p2_id game1 game2 with
                            | Some s2 =>
                                (delete_pairing_reps s2 pairing_id,
                                 GameConfirmed true)
                            | None => (s1, CommandError)
                            end
                        | Return _ =>
                            (delete_pairing_reps s1 pairing_id,
                             GameConfirmed false)
                        end
                    end
              end
            else (s, AlreadyReported)
        | None =>
            (add_season_rep clk s pairing_id author result game_number,
             GameReported)
        end
    end.

(** [valid_confirmation] of the freeform branch. *)
Definition valid_confirmation (result : Res) (pending_result : option Res)
    : bool :=
  match result, pending_result with
  | ResW, Some ResL => true
  | ResL, Some ResW => true
  | ResD, Some ResD => true
  | _, _ => false
  end.

(** The freeform branch of [report_match].  [pending_rep[3]] is the fourth
    column of [SELECT *], which is [result] in [pending_reps_columns]. *)
Definition freeform_report (clk : Clock) (s : Store) (author : Z)
    (result : Res) (opponent : Z) (reporter_data opponent_data : Player)
    : Store * Reply :=
  match get_pending_rep clk s opponent author with
  | Raise _ => (s, CommandError)
  | Return (Some pending_rep) =>
      if valid_confirmation result (pr_result pending_rep) then
        let reporter_elo := pl_elo reporter_data in
        let opponent_elo := pl_elo opponent_data in
        let '(new_reporter_elo, new_opponent_elo, rep_tally, opp_tally) :=
          match result with
          | ResW =>
              let '(nr, no) := update_elo reporter_elo opponent_elo false in
              (nr, no, (1, 0, 0), (0, 1, 0))
          | ResL =>
              let '(no, nr) := update_elo opponent_elo reporter_elo false in
              (nr, no, (0, 1, 0), (1, 0, 0))
          | ResD =>
              let '(nr, no) := update_elo reporter_elo opponent_elo true in
              (nr, no, (0, 0, 1), (0, 0, 1))
          end in
        let '(rep_wins, rep_losses, rep_draws) := rep_tally in
        let '(opp_wins, opp_losses, opp_draws) := opp_tally in
        let s1 :=
          update_player_stats s author new_reporter_elo rep_wins rep_losses
            rep_draws in
        let s2 :=
          update_player_stats s1 opponent new_opponent_elo opp_wins opp_losses
            opp_draws in
        (delete_pending_rep s2 (pr_id pending_rep), MatchConfirmed)
      else (s, ReportOpposite)
  | Return None =>
      match add_pending_rep clk s author opponent result with
      | Raise _ => (s, CommandError)
      | Return s1 => (s1, MatchReported)
      end
  end.

(** [report_match], the [$rep] command, after the channel check. *)
Definition report_match (clk : Clock) (s : Store) (author : Z)
    (result : string) (opponent : Z) (game_number : option Z)
    : Store * Reply :=
  match parse_result result with
  | None => (s, InvalidResult)
  | Some result =>
      if author =? opponent then (s, SelfReport)
      else
        match get_player_data s author, get_player_data s opponent with
        | Some reporter_data, Some opponent_data =>
            match latest_season (seasons s) with
            | None => (s, CommandError)
            | Some season =>
                match game_number with
                | Some n =>
                    if se_active season then
                      season_report clk s author result opponent n
                    else
                      freeform_report clk s author result opponent
                        reporter_data opponent_data
                | None =>
                    freeform_report clk s author result opponent reporter_data
                      opponent_data
                end
            end
        | _, _ => (s, NotRegistered)
        end
  end.

(** [cancel_pending_match], the [$cancel] command, after the channel
    check.  Nothing catches an exception here. *)
Definition cancel_pending_match (clk : Clock) (s : Store) (author : Z)
    (result : string) (opponent : Z) : Store * Reply :=
  match parse_result result with
  | None => (s, InvalidResult)
  | Some result =>
      if author =? opponent then (s, SelfReport)
      else
        match get_pending_rep clk s author opponent with
        | Raise _ => (s, CommandError)
        | Return None => (s, NoPendingMatch)
        | Return (Some pending_rep) =>
            match pr_result pending_rep with
            | None => (s, CommandError)
            | Some pending_result =>
                if negb (Res_eqb pending_result result) then (s, ResultMismatch)
                else (delete_pending_rep s (pr_id pending_rep), Canceled)
            end
        end
  end.

End Commands.

(** ** Registration and signup *)

(** Whether a row comes before another in [players]: [id] is the rowid. *)
Definition id_before (x y : Player) : bool := pl_id x <? pl_id y.

(** [register_player], the [$register] command.  The new row takes its
    place by its [id]. *)
Definition register_player (s : Store) (author : Z) : Store * Reply :=
  match get_player_data s author with
  | Some _ => (s, AlreadyRegistered)
  | None =>
      (set_players s
         (insert_sorted id_before (mkPlayer author INITIAL_ELO 0 0 0 false)
            (players s)),
       Registered)
  end.

(** [signup_player], the [$signup] command. *)
Definition signup_player (s : Store) (author : Z) : Store * Reply :=
  match get_player_data s author with
  | None => (s, RegisterFirst)
  | Some _ =>
      match latest_season (seasons s) with
      | None => (s, CommandError)
      | Some season =>
          if negb (se_active season) then
            (set_players s
               (map (fun p =>
                       if pl_id p =? author then
                         mkPlayer (pl_id p) (pl_elo p) (pl_wins p) (pl_losses p)
                           (pl_draws p) true
                       else p)
                  (players s)),
             SignedUp)
          else (s, SeasonIsActive)
      end
  end.

(** ** The pairing generator *)

(** A row of [elo_roles.csv] that [generate_pairings] keeps. *)
Record RoleRange := mkRoleRange {
  rr_name : string;
  rr_min : Z;
  rr_max : Z
}.

(** [role_ranges.sort(key=lambda x: x['min'], reverse=True)] *)
Definition min_before (x y : RoleRange) : bool := rr_min y <=? rr_min x.

(** The first range, highest minimum first, that holds the rating. *)
Definition find_role (role_ranges : list RoleRange) (elo : Q)
    : option RoleRange :=
  find (fun r =>
          Qle_bool (inject_Z (rr_min r)) elo && Qle_bool elo (inject_Z (rr_max r)))
       role_ranges.

(** [groups[name].append(player_id)] on a dict, kept in insertion order. *)
Fixpoint groups_append (groups : list (string * list Z)) (name : string)
    (player_id : Z) : list (string * list Z) :=
  match groups with
  | [] => [(name, [player_id])]
  | (n, ids) :: t =>
      if String.eqb n name then (n, ids ++ [player_id]) :: t
      else (n, ids) :: groups_append t name player_id
  end.

Definition group_players (role_ranges : list RoleRange)
    (signed : list (Z * Q)) : list (string * list Z) :=
  fold_left
    (fun groups row =>
       match find_role role_ranges (snd row) with
       | Some r => groups_append groups (rr_name r) (fst row)
       | None => groups
       end)
    signed [].

(** [[l[i:i + size] for i in range(0, len(l), size)]]; the count of rounds
    is bounded by the length, which is enough for a positive [size]. *)
Fixpoint chunks_fuel {A : Type} (fuel size : nat) (l : list A)
    : list (list A) :=
  match fuel with
  | O => []
  | S fuel' =>
      match l with
      | [] => []
      | _ :: _ => firstn size l :: chunks_fuel fuel' size (skipn size l)
      end
  end.

Definition chunks {A : Type} (size : nat) (l : list A) : list (list A) :=
  chunks_fuel (List.length l) size l.

(** [max(4, len(player_ids) // ((len(player_ids) // 7) + 1))] *)
Definition subgroup_size (n : Z) : Z := Z.max 4 (n / (n / 7 + 1)).

(** The subgroups of one tier group; [shuffle] is what [random.shuffle]
    makes of the list. *)
Definition split_subgroups (shuffle : list Z -> list Z) (player_ids : list Z)
    : list (list Z) :=
  if 7 <? Z.of_nat (List.length player_ids) then
    let player_ids := shuffle player_ids in
    chunks (Z.to_nat (subgroup_size (Z.of_nat (List.length player_ids))))
      player_ids
  else [player_ids].

(** [itertools.combinations(subgroup, 2)] *)
Fixpoint combinations2 {A : Type} (l : list A) : list (A * A) :=
  match l with
  | [] => []
  | x :: t => map (pair x) t ++ combinations2 t
  end.

(** [enumerate(l)] counted from [i]. *)
Fixpoint enumerate_from {A : Type} (i : nat) (l : list A) : list (nat * A) :=
  match l with
  | [] => []
  | x :: t => (i, x) :: enumerate_from (S i) t
  end.

Definition decimal (n : nat) : string :=
  DecimalString.NilZero.string_of_uint (Nat.to_uint n).

(** [group_name if len(subgroups) == 1 else f"{group_name}-{i + 1}"] *)
Definition subgroup_name (group_name : string) (n_subgroups i : nat) : string :=
  if (n_subgroups =? 1)%nat then group_name
  else (group_name ++ "-" ++ decimal (i + 1))%string.

(** The INSERT of [generate_pairings]: both results and the game number
    stay NULL. *)
Definition insert_pairing (season_number : Z) (group_name : string)
    (s : Store) (pair : Z * Z) : Store :=
  let new_id := pairings_seq s + 1 in
  mkStore (players s) (pending_reps s) (pending_seq s) (seasons s)
    (pairings s ++
       [mkPairing new_id (fst pair) (snd pair) None None season_number
          group_name None])
    new_id.

(** The pairings of one tier group. *)
Definition insert_group (shuffle : list Z -> list Z) (season_number : Z)
    (s : Store) (group : string * list Z) : Store :=
  let subgroups := split_subgroups shuffle (snd group) in
  fold_left
    (fun s sub =>
       fold_left
         (insert_pairing season_number
            (subgroup_name (fst group) (List.length subgroups) (fst sub)))
         (combinations2 (snd sub)) s)
    (enumerate_from 0 subgroups) s.

(** [generate_pairings]: the new store and the boolean it returns.
    [role_ranges] are the rows read from [elo_roles.csv], none when the file
    is missing. *)
Definition generate_pairings (role_ranges : list RoleRange)
    (shuffle : list Z -> list Z) (s : Store) (season_number : Z)
    : Store * bool :=
  let signed :=
    map (fun p => (pl_id p, pl_elo p)) (filter pl_signed_up (players s)) in
  match signed with
  | [] => (s, false)
  | _ :: _ =>
      let role_ranges := sort_by min_before role_ranges in
      match group_players role_ranges signed with
      | [] => (s, false)
      | groups => (fold_left (insert_group shuffle season_number) groups s, true)
      end
  end.

(** ** The season lifecycle *)

(** [UPDATE seasons SET active=? WHERE season_number=?] *)
Definition set_active (s : Store) (season_number : Z) (flag : bool) : Store :=
  set_seasons s
    (map (fun se =>
            if se_season_number se =? season_number then
              mkSeason (se_season_number se) flag
            else se)
       (seasons s)).

(** [start_season], the [$start_season] command.  [update_player_roles]
    runs between the check and the generator; it edits Discord roles and
    reads the store only.  What [generate_pairings] returns is not looked
    at. *)
Definition start_season (role_ranges : list RoleRange)
    (shuffle : list Z -> list Z) (s : Store) : Store * Reply :=
  match latest_season (seasons s) with
  | None => (s, CommandError)
  | Some season =>
      let current_season := se_season_number season in
      match find (fun se => se_season_number se =? current_season) (seasons s)
      with
      | None => (s, CommandError)
      | Some row =>
          if se_active row then (s, SeasonAlreadyActive)
          else
            let '(s1, generated) :=
              generate_pairings role_ranges shuffle s current_season in
            (set_active s1 current_season true, SeasonStarted generated)
      end
  end.

(** [end_season], the [$end_season] command.  The INSERT of the next season
    fails on a season number that exists; nothing is committed then. *)
Definition end_season (s : Store) : Store * Reply :=
  match active_season_number s with
  | None => (s, NoActiveSeason)
  | Some current_season =>
      let new_season := current_season + 1 in
      if existsb (fun se => se_season_number se =? new_season) (seasons s) then
        (s, CommandError)
      else
        let s1 :=
          set_players s
            (map (fun p =>
                    mkPlayer (pl_id p) (pl_elo p) (pl_wins p) (pl_losses p)
                      (pl_draws p) false)
               (players s)) in
        let s2 := set_seasons s1 (seasons s1 ++ [mkSeason new_season false]) in
        (set_active s2 current_season false, SeasonEnded)
  end.

(** ** The leaderboard *)

(** A Python string, as its code points. *)
Definition str : Type := list Z.

Definition is_some {A : Type} (o : option A) : bool :=
  match o with
  | Some _ => true
  | None => false
  end.

Section Unicode.
(** [unicodedata.decimal] and [unicodedata.digit]: the value of a code
    point that is a decimal digit (Numeric_Type Decimal), and of one whose
    Numeric_Type is Decimal or Digit. *)
Variable unicode_decimal : Z -> option Z.
Variable unicode_digit : Z -> option Z.

(** [arg.isdigit()]: at least one character, and every character a
    digit. *)
Definition isdigit (arg : str) : bool :=
  match arg with
  | [] => false
  | _ :: _ => forallb (fun c => is_some (unicode_digit c)) arg
  end.

Fixpoint int_acc (acc : Z) (arg : str) : Outcome Z :=
  match arg with
  | [] => Return acc
  | c :: t =>
      match unicode_decimal c with
      | Some d => int_acc (10 * acc + d) t
      | None => Raise ValueError
      end
  end.

(** [int(arg)] on a string of digit characters, which is all that
    [show_leaderboard] passes: the number they write in base ten when each
    is a decimal digit, [ValueError] otherwise.  (A Discord message is
    shorter than the 4300 digits from which [int] refuses a string.) *)
Definition int (arg : str) : Outcome Z :=
  match arg with
  | [] => Raise ValueError
  | _ :: _ => int_acc 0 arg
  end.

(** One round of the argument loop of [show_leaderboard], on
    [(limit, role_name)]. *)
Definition parse_step (st : Z * option str) (arg : str)
    : Outcome (Z * option str) :=
  if isdigit arg then
    match int arg with
    | Return n => Return (Z.min (Z.max 1 n) 25, snd st)
    | Raise e => Raise e
    end
  else
    Return
      (fst st,
       match snd st with
       | None => Some arg
       | Some role_name => Some (role_name ++ [32] ++ arg)
       end).

(** The loop, from [limit = 10] and [role_name = None]. *)
Fixpoint parse_loop (st : Z * option str) (args : list str)
    : Outcome (Z * option str) :=
  match args with
  | [] => Return st
  | arg :: t =>
      match parse_step st arg with
      | Return st' => parse_loop st' t
      | Raise e => Raise e
      end
  end.

Definition parse_args (args : list str) : Outcome (Z * option str) :=
  parse_loop (10, None) args.

End Unicode.

(** [ORDER BY elo DESC] *)
Definition elo_before (x y : Player) : bool := Qle_bool (pl_elo y) (pl_elo x).

(** [query + " ORDER BY elo DESC LIMIT ?"], with the [WHERE id IN (...)] of
    a role filter when [member_ids] is given. *)
Definition top_players (s : Store) (member_ids : option (list Z)) (limit : Z)
    : list Player :=
  let rows :=
    match member_ids with
    | Some ids => filter (fun p => existsb (Z.eqb (pl_id p)) ids) (players s)
    | None => players s
    end in
  firstn (Z.to_nat limit) (sort_by elo_before rows).

Section Leaderboard.
Variable unicode_decimal : Z -> option Z.
Variable unicode_digit : Z -> option Z.
(** The ids of the members of the server's role of that name, letter case
    aside; [None] when there is no such role. *)
Variable role_members : str -> option (list Z).

(** The players [show_leaderboard] lists at the top; [None] when it stops
    at the role lookup. *)
Definition show_leaderboard (s : Store) (args : list str)
    : Outcome (option (list Player)) :=
  match parse_args unicode_decimal unicode_digit args with
  | Raise e => Raise e
  | Return (limit, role_name) =>
      match role_name with
      | Some (c :: t) =>
          match role_members (c :: t) with
          | None => Return None
          | Some [] => Return None
          | Some member_ids =>
              Return (Some (top_players s (Some member_ids) limit))
          end
      | _ => Return (Some (top_players s None limit))
      end
  end.

End Leaderboard.

(** An excerpt of the Unicode database: the decimal digits of ASCII and the
    Arabic-Indic ones, and the superscripts two, three and one, which are
    digits but no decimal digits. *)
Definition excerpt_decimal (c : Z) : option Z :=
  if (48 <=? c) && (c <=? 57) then Some (c - 48)
  else if (1632 <=? c) && (c <=? 1641) then Some (c - 1632)
  else None.

Definition excerpt_digit (c : Z) : option Z :=
  match excerpt_decimal c with
  | Some d => Some d
  | None =>
      if c =? 178 then Some 2
      else if c =? 179 then Some 3
      else if c =? 185 then Some 1
      else None
  end.

(** ** Runs of the bot *)

(** A command as the bot receives it, with what it reads from outside the
    store: the role file and the shuffle for [$start_season]. *)
Inductive Command :=
| CmdRegister (author : Z)
| CmdSignup (author : Z)
| CmdRep (author : Z) (result : string) (opponent : Z) (game_number : option Z)
| CmdCancel (author : Z) (result : string) (opponent : Z)
| CmdStartSeason (role_ranges : list RoleRange) (shuffle : list Z -> list Z)
| CmdEndSeason
| CmdCleanup.

Section Runs.
Variable update_elo : Q -> Q -> bool -> Q * Q.

(** The store after one command, or one round of the cleanup task. *)
Definition run (clk : Clock) (s : Store) (c : Command) : Store :=
  match c with
  | CmdRegister author => fst (register_player s author)
  | CmdSignup author => fst (signup_player s author)
  | CmdRep author result opponent game_number =>
      fst (report_match update_elo clk s author result opponent game_number)
  | CmdCancel author result opponent =>
      fst (cancel_pending_match clk s author result opponent)
  | CmdStartSeason role_ranges shuffle =>
      fst (start_season role_ranges shuffle s)
  | CmdEndSeason => fst (end_season s)
  | CmdCleanup => clean_old_pending_matches clk s
  end.

(** [steps s s']: some commands, each at its own time, lead from [s] to
    [s']. *)
Inductive steps : Store -> Store -> Prop :=
| steps_refl (s : Store) : steps s s
| steps_next (s s' : Store) (clk : Clock) (c : Command) :
    steps s s' -> steps s (run clk s' c).

Definition reachable (s : Store) : Prop := steps init_db s.

End Runs.

(** ** Pending reports per key *)






(** ** Scenarios *)

(** [update_elo] with the expected score 1/2, which is what
    [get_expected_score] gives for two equal ratings; the scenarios call it
    on equal ratings only. *)
Definition update_elo_level (winner_elo loser_elo : Q) (draw : bool) : Q * Q :=
  if draw then
    ((winner_elo + 25 * ((1 # 2) - (1 # 2)))%Q,
     (loser_elo + 25 * ((1 # 2) - (1 # 2)))%Q)
  else
    ((winner_elo + 25 * (1 - (1 # 2)))%Q,
     (loser_elo + 25 * (0 - (1 - (1 # 2))))%Q).

(** Players 1 and 2, registered, at the initial rating. *)
Definition two_players : list Player :=
  [mkPlayer 1 INITIAL_ELO 0 0 0 false; mkPlayer 2 INITIAL_ELO 0 0 0 false].

(** A new database with players 1 and 2. *)
Definition registered : Store :=
  mkStore two_players [] 0 [mkSeason 1 false] [] 0.

Definition noon : Clock := mkClock 43200 43200.


(** ** Keys and the seasons table *)

(** The primary keys: player ids are unique, and so are the ids of pending
    reports and of pairings, none above its AUTOINCREMENT counter. *)
Definition keys_ok (s : Store) : Prop :=
  NoDup (map pl_id (players s))
  /\ NoDup (map pr_id (pending_reps s))
  /\ Forall (fun r => pr_id r <= pending_seq s) (pending_reps s)
  /\ NoDup (map pa_id (pairings s))
  /\ Forall (fun p => pa_id p <= pairings_seq s) (pairings s).

(** Seasons 1 to [n], closed. *)
Definition closed_seasons (n : nat) : list Season :=
  map (fun k => mkSeason (Z.of_nat k) false) (seq 1 n).

(** The replies of [report_match] and [cancel_pending_match] that turn the
    command down. *)
Definition is_rejection (reply : Reply) : bool :=
  match reply with
  | InvalidResult | SelfReport | NotRegistered | InvalidGameNumber
  | NoPairing | ResultsDontMatch | AlreadyReported | ReportOpposite
  | NoPendingMatch | ResultMismatch => true
  | _ => false
  end.

(** ** More of the leaderboard *)

(** The rows the leaderboard queries range over. *)
Definition leaderboard_rows (s : Store) (member_ids : option (list Z))
    : list Player :=
  match member_ids with
  | Some ids => filter (fun p => existsb (Z.eqb (pl_id p)) ids) (players s)
  | None => players s
  end.

(** [SELECT COUNT( * ) FROM players WHERE elo > ?], with the role filter,
    plus one. *)
Definition user_rank (s : Store) (member_ids : option (list Z)) (user_elo : Q)
    : Z :=
  Z.of_nat
    (List.length
       (filter (fun p => negb (Qle_bool (pl_elo p) user_elo))
          (leaderboard_rows s member_ids)))
  + 1.

(** [query + " ORDER BY elo DESC LIMIT 3 OFFSET ?"] with
    [offset = max(0, user_rank - 2)]. *)
Definition user_surrounding (s : Store) (member_ids : option (list Z))
    (rank : Z) : list Player :=
  let offset := Z.max 0 (rank - 2) in
  firstn 3
    (skipn (Z.to_nat offset)
       (sort_by elo_before (leaderboard_rows s member_ids))).

(** An argument that the loop of [show_leaderboard] adds to the role
    name. *)
Definition not_a_number (unicode_digit : Z -> option Z) (a : str) : bool :=
  negb (isdigit unicode_digit a).

(** The words with one space between them, [None] for no word. *)
Fixpoint join_words (words : list str) : option str :=
  match words with
  | [] => None
  | w :: t =>
      match join_words t with
      | None => Some w
      | Some rest => Some (w ++ [32] ++ rest)
      end
  end.

(** ** Pages of pairings *)

Section Pages.
(** A character of a Python string. *)
Context {Char : Type}.

(** An embed of [show_pairings]: the page number of its title and its
    description. *)
Record Embed := mkEmbed {
  page_num : nat;
  description : list Char
}.

Definition MAX_EMBED_CHARS : nat := 4096.

(** One round of the loop over the pairings, on
    [(embeds, current_embed, char_count)], for the entry of the pairing. *)
Definition page_step (st : list Embed * option Embed * nat)
    (entry : list Char) : list Embed * option Embed * nat :=
  let '(embeds, current_embed, char_count) := st in
  let entry_length := List.length entry in
  let '(embeds, current, char_count) :=
    match current_embed with
    | None => (embeds, mkEmbed (List.length embeds + 1) [], O)
    | Some e =>
        if (MAX_EMBED_CHARS <? char_count + entry_length)%nat then
          let embeds := embeds ++ [e] in
          (embeds, mkEmbed (List.length embeds + 1) [], O)
        else (embeds, e, char_count)
    end in
  (embeds, Some (mkEmbed (page_num current) (description current ++ entry)),
   (char_count + entry_length)%nat).

(** The embeds [show_pairings] builds from the entries. *)
Definition paginate (entries : list (list Char)) : list Embed :=
  let '(embeds, current_embed, _) :=
    fold_left page_step entries ([], None, O) in
  match current_embed with
  | Some e => embeds ++ [e]
  | None => embeds
  end.

End Pages.

(** ** The paginator *)

(** The state of a [PairingsPaginator]: the page shown, of [n_pages]
    embeds. *)
Record Paginator := mkPaginator {
  current_page : Z;
  n_pages : Z
}.

Inductive Button := PreviousButton | NextButton.

(** [_update_buttons]: whether the button is disabled. *)
Definition disabled (v : Paginator) (b : Button) : bool :=
  match b with
  | PreviousButton => current_page v =? 0
  | NextButton => current_page v =? n_pages v - 1
  end.

(** [previous_button] and [next_button]: a press by [user] on the view of
    [author]. *)
Definition press (author user : Z) (v : Paginator) (b : Button) : Paginator :=
  if negb (user =? author) then v
  else
    match b with
    | PreviousButton => mkPaginator (current_page v - 1) (n_pages v)
    | NextButton => mkPaginator (current_page v + 1) (n_pages v)
    end.

(** The seasons table holds seasons 1 to [n + 1], all closed but for the
    last, which is active or not. *)
Definition seasons_in_order (s : Store) (n : nat) (last_active : bool) : Prop :=
  seasons s = closed_seasons n ++ [mkSeason (Z.of_nat (S n)) last_active].

(** What [signup_player] makes of a player row. *)
Definition signed (p : Player) : Player :=
  mkPlayer (pl_id p) (pl_elo p) (pl_wins p) (pl_losses p) (pl_draws p) true.

(** A new database after [$start_season] and [$end_season]. *)
Definition second_season : Store :=
  fst (end_season (fst (start_season [] (fun l => l) init_db))).

(** One role range that holds every rating of the scenarios. *)
Definition gold : list RoleRange := [mkRoleRange "Gold" 1000 2000].

(** Players 1 and 2 have signed up for season 1. *)
Definition signed_up_two : Store :=
  fst (signup_player (fst (signup_player registered 1)) 2).

(** Season 1 has started for them. *)
Definition season_of_two : Store :=
  fst (start_season gold (fun l => l) signed_up_two).

(** A pairing row as [generate_pairings] inserts it for a season: no result
    and no game number. *)
Definition fresh_pairing (season_number : Z) (p : Pairing) : Prop :=
  pa_result1 p = None /\ pa_result2 p = None /\ pa_game_number p = None
  /\ pa_season_number p = season_number.

(** [s'] is [s] with new pairing rows for the season appended, numbered on
    from the counter, and nothing else changed. *)
Definition adds_pairings (season_number : Z) (s s' : Store) : Prop :=
  exists new,
    pairings s' = pairings s ++ new
    /\ Forall (fresh_pairing season_number) new
    /\ pairings_seq s' = pairings_seq s + Z.of_nat (List.length new)
    /\ players s' = players s
    /\ pending_reps s' = pending_reps s
    /\ pending_seq s' = pending_seq s
    /\ seasons s' = seasons s.

(** Whether some role range holds the rating of a signed-up player. *)
Definition in_some_role (role_ranges : list RoleRange) (row : Z * Q) : bool :=
  match find_role role_ranges (snd row) with
  | Some _ => true
  | None => false
  end.

(** One round of the grouping loop of [generate_pairings]. *)
Definition group_step (role_ranges : list RoleRange)
    (groups : list (string * list Z)) (row : Z * Q)
    : list (string * list Z) :=
  match find_role role_ranges (snd row) with
  | Some r => groups_append groups (rr_name r) (fst row)
  | None => groups
  end.

(** What holds of the state of the paging loop after the entries so far:
    the pages, closed and open, hold the entries in order, are numbered
    from 1, and each has at most [MAX_EMBED_CHARS] characters or is one
    entry; [char_count] is the length of the open page. *)
Definition pages_inv {Char : Type} (entries : list (list Char))
    (st : list (@Embed Char) * option (@Embed Char) * nat) : Prop :=
  let '(embeds, current_embed, char_count) := st in
  let pages :=
    embeds ++ match current_embed with Some e => [e] | None => [] end in
  List.concat (map description pages) = List.concat entries
  /\ map page_num pages = seq 1 (List.length pages)
  /\ Forall (fun e =>
               (List.length (description e) <= MAX_EMBED_CHARS)%nat
               \/ In (description e) entries)
       pages
  /\ (List.length pages <= List.length entries)%nat
  /\ match current_embed with
     | Some e => char_count = List.length (description e)
     | None => embeds = [] /\ entries = []
     end.

(** Players 1 and 2 after the settlement of a pairing with two draws. *)
Definition settled_draws : Store :=
  match settle update_elo_level registered 1 1 2 (1 # 2) (1 # 2) with
  | Some s' => s'
  | None => registered
  end.

(** Whether the range holds the rating: [min <= elo <= max]. *)
Definition in_range (r : RoleRange) (elo : Q) : bool :=
  Qle_bool (inject_Z (rr_min r)) elo && Qle_bool elo (inject_Z (rr_max r)).

(** The players, group and season of a pairing row. *)
Definition pairing_of (p : Pairing) : Z * Z * string * Z :=
  (pa_player1_id p, pa_player2_id p, pa_group_name p, pa_season_number p).

(** ** Tallies and [$stats] *)

(** No tally is negative. *)
Definition tallies_ok (s : Store) : Prop :=
  Forall (fun p => 0 <= pl_wins p /\ 0 <= pl_losses p /\ 0 <= pl_draws p)
    (players s).

(** What [show_stats] puts into its embed, or why it does not. *)
Inductive StatsReply :=
| StatsNotRegistered
| StatsDivisionByZero
| Stats (elo : Q) (wins losses draws total_games : Z) (win_rate : option Q).

(** [show_stats], the [$stats] command for the player [target]: the fields
    of the embed; the win rate field is there when a win or a loss has been
    recorded. *)
Definition show_stats (s : Store) (target : Z) : StatsReply :=
  match get_player_data s target with
  | None => StatsNotRegistered
  | Some data =>
      let total_games := pl_wins data + pl_losses data + pl_draws data in
      if 0 <? pl_wins data + pl_losses data then
        if total_games =? 0 then StatsDivisionByZero
        else
          Stats (pl_elo data) (pl_wins data) (pl_losses data) (pl_draws data)
            total_games
            (Some (inject_Z (pl_wins data) / inject_Z total_games * 100)%Q)
      else
        Stats (pl_elo data) (pl_wins data) (pl_losses data) (pl_draws data)
          total_games None
  end.

(** ** What the reports leave untouched *)

(** No game of the pairing is recorded. *)
Definition no_result (p : Pairing) : Prop :=
  pa_result1 p = None /\ pa_result2 p = None.


(** A player row as [register_player] writes it, the signup flag aside. *)
Definition unrated (p : Player) : Prop :=
  pl_elo p = INITIAL_ELO /\ pl_wins p = 0 /\ pl_losses p = 0
  /\ pl_draws p = 0.

(** No pending report, no recorded game and no rated player. *)
Definition nothing_reported (s : Store) : Prop :=
  pending_reps s = []
  /\ Forall no_result (pairings s)
  /\ Forall unrated (players s).



(** * Properties *)

(** ** The rating engine *)

Module EloFacts.
Import Elo.
Local Open Scope R_scope.

Lemma Rpower_pos (x y : R) : 0 < Rpower x y.
Proof. unfold Rpower. apply exp_pos. Qed.

Lemma Rpower_flip (a b : R) :
  Rpower 10 ((a - b) / 400) = / Rpower 10 ((b - a) / 400).
Proof.
  rewrite <- Rpower_Ropp. f_equal. lra.
Qed.

(** The two expectations of a pairing add up to one. *)
Lemma expected_sum (a b : R) :
  get_expected_score a b + get_expected_score b a = 1.
Proof.
  unfold get_expected_score.
  rewrite (Rpower_flip a b).
  pose proof (Rpower_pos 10 ((b - a) / 400)) as Hp.
  field. lra.
Qed.

Lemma expected_level (a : R) : get_expected_score a a = / 2.
Proof.
  unfold get_expected_score.
  replace ((a - a) / 400) with 0 by lra.
  rewrite Rpower_O by lra. lra.
Qed.

(** C8: for all ratings, a decisive update gives the winner
    [K_FACTOR * (1 - expected)] and takes the same amount from the loser,
    and the two changes of a draw update cancel as well. *)
Theorem update_elo_zero_sum (winner_elo loser_elo : R) :
  (let '(nw, nl) := update_elo winner_elo loser_elo false in
   nw - winner_elo
     = K_FACTOR * (1 - get_expected_score winner_elo loser_elo)
   /\ loser_elo - nl = nw - winner_elo)
  /\
  (let '(nw, nl) := update_elo winner_elo loser_elo true in
   nw - winner_elo
     = K_FACTOR * (/ 2 - get_expected_score winner_elo loser_elo)
   /\ nl - loser_elo
     = K_FACTOR * (/ 2 - get_expected_score loser_elo winner_elo)
   /\ (nw - winner_elo) + (nl - loser_elo) = 0).
Proof.
  unfold update_elo; cbv zeta. split.
  - split; ring.
  - pose proof (expected_sum winner_elo loser_elo) as Hs.
    split; [ring | split; [ring | ]].
    unfold K_FACTOR. lra.
Qed.

(** On two equal ratings [update_elo_level] is [update_elo]. *)
Lemma update_elo_level_agrees (a : Q) (draw : bool) :
  fst (update_elo (Q2R a) (Q2R a) draw) = Q2R (fst (update_elo_level a a draw))
  /\ snd (update_elo (Q2R a) (Q2R a) draw)
     = Q2R (snd (update_elo_level a a draw)).
Proof.
  unfold update_elo, update_elo_level, K_FACTOR.
  destruct draw; cbn [fst snd]; rewrite !expected_level;
    rewrite ?Q2R_plus, ?Q2R_minus, ?Q2R_mult, ?Q2R_plus, ?Q2R_minus;
    replace (Q2R 25) with 25 by (unfold Q2R; simpl; lra);
    replace (Q2R (1 # 2)) with (/ 2) by (unfold Q2R; simpl; lra);
    replace (Q2R 1) with 1 by (unfold Q2R; simpl; lra);
    replace (Q2R 0) with 0 by (unfold Q2R; simpl; lra);
    split; lra.
Qed.

End EloFacts.

(** ** Statements on columns the tables do not have *)

Lemma get_pending_rep_raises (clk : Clock) (s : Store)
    (reporter_id opponent_id : Z) :
  get_pending_rep clk s reporter_id opponent_id
  = Raise (OperationalError "opponent_id").
Proof. reflexivity. Qed.

Lemma add_pending_rep_raises (clk : Clock) (s : Store)
    (reporter_id opponent_id : Z) (reporter_result : Res) :
  add_pending_rep clk s reporter_id opponent_id reporter_result
  = Raise (OperationalError "opponent_id").
Proof. reflexivity. Qed.

Lemma find_pairing_raises (s : Store) (author opponent game_number : Z) :
  find_pairing s author opponent game_number
  = Raise (OperationalError "game_number").
Proof. reflexivity. Qed.

(** ** Reports and cancellations *)

Section ReportFacts.
Variable update_elo : Q -> Q -> bool -> Q * Q.

(** The season branch stops at the game number or at the pairing lookup. *)
Lemma season_report_fails (clk : Clock) (s : Store) (author : Z) (res : Res)
    (opponent n : Z) :
  season_report update_elo clk s author res opponent n
  = (s, if (n =? 1) || (n =? 2) then CommandError else InvalidGameNumber).
Proof.
  unfold season_report. rewrite find_pairing_raises.
  now destruct ((n =? 1) || (n =? 2)).
Qed.

(** The freeform branch stops at [get_pending_rep]. *)
Lemma freeform_report_fails (clk : Clock) (s : Store) (author : Z)
    (res : Res) (opponent : Z) (rd od : Player) :
  freeform_report update_elo clk s author res opponent rd od
  = (s, CommandError).
Proof. unfold freeform_report. now rewrite get_pending_rep_raises. Qed.

(** No [$rep] changes the store. *)
Lemma report_match_store (clk : Clock) (s : Store) (author : Z)
    (result : string) (opponent : Z) (game_number : option Z) :
  fst (report_match update_elo clk s author result opponent game_number) = s.
Proof.
  unfold report_match.
  destruct (parse_result result) as [res|]; [|reflexivity].
  destruct (author =? opponent); [reflexivity|].
  destruct (get_player_data s author) as [rd|]; [|reflexivity].
  destruct (get_player_data s opponent) as [od|]; [|reflexivity].
  destruct (latest_season (seasons s)) as [season|]; [|reflexivity].
  destruct game_number as [n|].
  - destruct (se_active season).
    + now rewrite season_report_fails.
    + now rewrite freeform_report_fails.
  - now rewrite freeform_report_fails.
Qed.


End ReportFacts.

(** No [$cancel] changes the store. *)
Lemma cancel_pending_match_store (clk : Clock) (s : Store) (author : Z)
    (result : string) (opponent : Z) :
  fst (cancel_pending_match clk s author result opponent) = s.
Proof.
  unfold cancel_pending_match.
  destruct (parse_result result) as [res|]; [|reflexivity].
  destruct (author =? opponent); [reflexivity|].
  now rewrite get_pending_rep_raises.
Qed.

(** ** Lists *)

Lemma find_none_filter {A : Type} (f : A -> bool) (l : list A) :
  find f l = None -> filter f l = [].
Proof.
  induction l as [|x t IH]; simpl; [reflexivity|].
  destruct (f x); [discriminate|exact IH].
Qed.

(** ** Sorting *)

Section SortingFacts.
Context {A : Type} (before : A -> A -> bool).
Hypothesis before_total : forall x y, before x y = false -> before y x = true.
Hypothesis before_trans :
  forall x y z, before x y = true -> before y z = true -> before x z = true.

Lemma insert_sorted_perm (x : A) (l : list A) :
  Permutation (insert_sorted before x l) (x :: l).
Proof.
  induction l as [|y t IH]; simpl; [reflexivity|].
  destruct (before x y); [reflexivity|].
  rewrite IH. apply perm_swap.
Qed.

Lemma sort_by_perm (l : list A) : Permutation (sort_by before l) l.
Proof.
  induction l as [|x t IH]; simpl; [reflexivity|].
  rewrite insert_sorted_perm. now apply perm_skip.
Qed.

Lemma insert_sorted_sorted (x : A) (l : list A) :
  StronglySorted (fun a b => before a b = true) l ->
  StronglySorted (fun a b => before a b = true) (insert_sorted before x l).
Proof.
  induction l as [|y t IH]; intros Hs; simpl.
  - constructor; constructor.
  - inversion Hs as [|? ? Ht Hy]; subst.
    destruct (before x y) eqn:E.
    + constructor; [exact Hs|]. constructor; [exact E|].
      rewrite Forall_forall in *. intros z Hz. eauto.
    + constructor; [now apply IH|].
      rewrite Forall_forall in *. intros z Hz.
      apply (Permutation_in _ (insert_sorted_perm x t)) in Hz.
      destruct Hz as [<-|Hz]; [now apply before_total|now apply Hy].
Qed.

Lemma sort_by_sorted (l : list A) :
  StronglySorted (fun a b => before a b = true) (sort_by before l).
Proof.
  induction l as [|x t IH]; simpl; [constructor|].
  now apply insert_sorted_sorted.
Qed.

End SortingFacts.

Lemma in_firstn {A : Type} (n : nat) (l : list A) (x : A) :
  In x (firstn n l) -> In x l.
Proof.
  intros H. rewrite <- (firstn_skipn n l). apply in_or_app. now left.
Qed.

Lemma sorted_weaken {A : Type} (R R' : A -> A -> Prop) (l : list A) :
  (forall a b, R a b -> R' a b) -> StronglySorted R l -> StronglySorted R' l.
Proof.
  intros HR Hs. induction Hs as [|x t Ht IH Hx]; constructor; trivial.
  rewrite Forall_forall in *. auto.
Qed.

Lemma firstn_sorted {A : Type} (R : A -> A -> Prop) (n : nat) (l : list A) :
  StronglySorted R l -> StronglySorted R (firstn n l).
Proof.
  revert n. induction l as [|x t IH]; intros n Hs.
  - rewrite firstn_nil. constructor.
  - destruct n as [|n]; simpl; [constructor|].
    inversion Hs as [|? ? Ht Hx]; subst. constructor; [now apply IH|].
    rewrite Forall_forall in *. intros z Hz. apply Hx.
    now apply (in_firstn n).
Qed.

(** ** The leaderboard *)

Lemma elo_before_total (x y : Player) :
  elo_before x y = false -> elo_before y x = true.
Proof.
  unfold elo_before. intros H. apply Qle_bool_iff.
  destruct (Qlt_le_dec (pl_elo y) (pl_elo x)) as [L|L].
  - exfalso. apply Qlt_le_weak in L. apply Qle_bool_iff in L. congruence.
  - exact L.
Qed.

Lemma elo_before_trans (x y z : Player) :
  elo_before x y = true -> elo_before y z = true -> elo_before x z = true.
Proof.
  unfold elo_before. rewrite !Qle_bool_iff. intros H1 H2.
  now apply Qle_trans with (pl_elo y).
Qed.

(** C10: a size argument is not always clamped.  The one-character string
    of the superscript two (U+00B2) is a digit string for [isdigit], so the
    argument loop takes it for the size; [int] raises [ValueError] on it,
    and the command ends there, whatever the other arguments and the store:
    no size is set and no player is listed. *)
Theorem leaderboard_superscript_two
    (unicode_decimal unicode_digit : Z -> option Z)
    (role_members : str -> option (list Z)) (s : Store) (args : list str) :
  unicode_decimal 178 = None ->
  unicode_digit 178 = Some 2 ->
  isdigit unicode_digit [178] = true
  /\ show_leaderboard unicode_decimal unicode_digit role_members s
       ([178] :: args)
     = Raise ValueError.
Proof.
  intros Hdec Hdig. split.
  - cbn [isdigit forallb]. now rewrite Hdig.
  - unfold show_leaderboard, parse_args. cbn [parse_loop].
    unfold parse_step. cbn [isdigit forallb]. rewrite Hdig.
    cbn [is_some andb int int_acc]. now rewrite Hdec.
Qed.

(** [$leaderboard] with the superscript two, and with it before a role
    name. *)
Lemma leaderboard_superscript_two_witness :
  isdigit excerpt_digit [178] = true
  /\ show_leaderboard excerpt_decimal excerpt_digit (fun _ => None) registered
       [[178]; [71; 111; 108; 100]]
     = Raise ValueError.
Proof.
  apply (leaderboard_superscript_two excerpt_decimal excerpt_digit
           (fun _ => None) registered [[71; 111; 108; 100]]);
    reflexivity.
Defined.

(** ** Starting a season *)

Lemma latest_season_find (l : list Season) (x : Season) :
  latest_season l = Some x ->
  find (fun se => se_season_number se =? se_season_number x) l = Some x.
Proof.
  revert x. induction l as [|y t IH]; intros x H; simpl in H; [discriminate|].
  simpl. destruct (latest_season t) as [z|].
  - destruct (se_season_number y <? se_season_number z) eqn:C;
      injection H as <-.
    + apply Z.ltb_lt in C.
      replace (se_season_number y =? se_season_number z) with false
        by (symmetry; apply Z.eqb_neq; lia).
      now apply IH.
    + now rewrite Z.eqb_refl.
  - injection H as <-. now rewrite Z.eqb_refl.
Qed.

Lemma latest_season_map (f : Season -> Season) (l : list Season) :
  (forall x, se_season_number (f x) = se_season_number x) ->
  latest_season (map f l) = option_map f (latest_season l).
Proof.
  intros Hf. induction l as [|y t IH]; simpl; [reflexivity|].
  rewrite IH. destruct (latest_season t) as [z|]; simpl; [|reflexivity].
  rewrite !Hf. now destruct (se_season_number y <? se_season_number z).
Qed.

(** When [generate_pairings] returns [False] it has written nothing. *)
Lemma generate_pairings_failed (role_ranges : list RoleRange)
    (shuffle : list Z -> list Z) (s : Store) (season_number : Z) :
  snd (generate_pairings role_ranges shuffle s season_number) = false ->
  fst (generate_pairings role_ranges shuffle s season_number) = s.
Proof.
  unfold generate_pairings.
  destruct (map _ (filter pl_signed_up (players s))); [reflexivity|].
  destruct (group_players _ _); [reflexivity|discriminate].
Qed.

(** With no player signed up, or none inside a role range,
    [generate_pairings] returns [False]. *)
Lemma generate_pairings_fails (role_ranges : list RoleRange)
    (shuffle : list Z -> list Z) (s : Store) (season_number : Z) :
  filter pl_signed_up (players s) = []
  \/ group_players (sort_by min_before role_ranges)
       (map (fun p => (pl_id p, pl_elo p)) (filter pl_signed_up (players s)))
     = [] ->
  snd (generate_pairings role_ranges shuffle s season_number) = false.
Proof.
  unfold generate_pairings. intros [H|H]; rewrite H; [reflexivity|].
  now destruct (map _ (filter pl_signed_up (players s))).
Qed.

(** [start_season] turns down an active season and leaves the store as it
    is. *)
Lemma start_season_already_active (role_ranges : list RoleRange)
    (shuffle : list Z -> list Z) (s : Store) (season : Season) :
  latest_season (seasons s) = Some season ->
  se_active season = true ->
  start_season role_ranges shuffle s = (s, SeasonAlreadyActive).
Proof.
  intros Hl Ha. unfold start_season.
  now rewrite Hl, (latest_season_find _ _ Hl), Ha.
Qed.

(** C1: the code marks the season active when pairing generation has
    failed.  For a store whose current season is open, if
    [generate_pairings] returns [False], [start_season] still answers that
    the season has started, with the current season active and the pairings
    as they were. *)
Theorem start_season_ignores_failure (role_ranges : list RoleRange)
    (shuffle : list Z -> list Z) (s : Store) (season : Season) :
  latest_season (seasons s) = Some season ->
  se_active season = false ->
  snd (generate_pairings role_ranges shuffle s (se_season_number season))
    = false ->
  snd (start_season role_ranges shuffle s) = SeasonStarted false
  /\ latest_season (seasons (fst (start_season role_ranges shuffle s)))
     = Some (mkSeason (se_season_number season) true)
  /\ pairings (fst (start_season role_ranges shuffle s)) = pairings s.
Proof.
  intros Hl Ha Hg. unfold start_season.
  rewrite Hl, (latest_season_find _ _ Hl), Ha.
  pose proof (generate_pairings_failed _ _ _ _ Hg) as Hs.
  destruct (generate_pairings role_ranges shuffle s (se_season_number season))
    as [s1 generated].
  simpl in Hg, Hs. subst. repeat split. simpl.
  rewrite latest_season_map.
  - rewrite Hl. simpl. now rewrite Z.eqb_refl.
  - intros x. now destruct (se_season_number x =? se_season_number season).
Qed.

(** On a new database, where nobody has signed up, [$start_season] starts
    season 1 without a single pairing. *)
Lemma start_season_ignores_failure_witness :
  snd (start_season [] (fun l => l) init_db) = SeasonStarted false
  /\ latest_season (seasons (fst (start_season [] (fun l => l) init_db)))
     = Some (mkSeason 1 true)
  /\ pairings (fst (start_season [] (fun l => l) init_db)) = pairings init_db.
Proof.
  apply (start_season_ignores_failure [] (fun l => l) init_db
           (mkSeason 1 false)); reflexivity.
Defined.

(** ** Subgroups *)

(** A tier group of seven players or fewer is one subgroup. *)
Lemma split_subgroups_small (shuffle : list Z -> list Z)
    (player_ids : list Z) :
  (List.length player_ids <= 7)%nat ->
  split_subgroups shuffle player_ids = [player_ids].
Proof.
  intros H. unfold split_subgroups.
  replace (7 <? Z.of_nat (List.length player_ids)) with false; [reflexivity|].
  symmetry. apply Z.ltb_ge. lia.
Qed.

Lemma chunks_fuel_sizes {A : Type} (fuel size : nat) (l : list A) :
  Forall (fun c => (List.length c <= size)%nat) (chunks_fuel fuel size l).
Proof.
  revert l. induction fuel as [|fuel IH]; intros l; simpl; [constructor|].
  destruct l as [|x t]; [constructor|].
  constructor; [|apply IH]. apply firstn_le_length.
Qed.

Lemma subgroup_size_range (n : Z) : 0 <= n -> 4 <= subgroup_size n <= 7.
Proof.
  intros Hn. unfold subgroup_size.
  assert (Hq : 0 <= n / 7) by (apply Z.div_pos; lia).
  assert (n / (n / 7 + 1) < 7).
  { apply Z.div_lt_upper_bound; [lia|].
    pose proof (Z.mod_pos_bound n 7 ltac:(lia)) as Hm.
    pose proof (Z.div_mod n 7 ltac:(lia)) as Hd. lia. }
  lia.
Qed.

(** No subgroup has more than seven players. *)
Lemma split_subgroups_at_most_seven (shuffle : list Z -> list Z)
    (player_ids : list Z) :
  Forall (fun c => (List.length c <= 7)%nat)
    (split_subgroups shuffle player_ids).
Proof.
  unfold split_subgroups.
  destruct (7 <? Z.of_nat (List.length player_ids)) eqn:E.
  - eapply Forall_impl; [|apply chunks_fuel_sizes].
    intros c Hc. cbv beta in Hc.
    pose proof (subgroup_size_range
                  (Z.of_nat (List.length (shuffle player_ids)))
                  ltac:(lia)) as Hr.
    lia.
  - apply Z.ltb_ge in E. constructor; [lia|constructor].
Qed.

(** C5: the code splits a tier group of nine players into subgroups of
    four, four and one, whatever the shuffle. *)
Theorem split_subgroups_of_nine (shuffle : list Z -> list Z)
    (player_ids : list Z) :
  List.length player_ids = 9%nat ->
  List.length (shuffle player_ids) = 9%nat ->
  map (@List.length Z) (split_subgroups shuffle player_ids)
    = [4; 4; 1]%nat.
Proof.
  intros H Hs. unfold split_subgroups. rewrite H. simpl.
  unfold chunks. rewrite Hs.
  destruct (shuffle player_ids)
    as [|a1 [|a2 [|a3 [|a4 [|a5 [|a6 [|a7 [|a8 [|a9 [|a10 t]]]]]]]]]];
    try discriminate.
  reflexivity.
Qed.

Lemma split_subgroups_of_nine_witness :
  map (@List.length Z) (split_subgroups (@rev Z) [1; 2; 3; 4; 5; 6; 7; 8; 9])
    = [4; 4; 1]%nat.
Proof.
  apply (split_subgroups_of_nine (@rev Z) [1; 2; 3; 4; 5; 6; 7; 8; 9]);
    reflexivity.
Defined.

(** * Further properties *)

(** ** The rating engine: order and bounds *)

Module EloOrder.
Import Elo EloFacts.
Local Open Scope R_scope.

Lemma expected_positive (a b : R) : 0 < get_expected_score a b.
Proof.
  unfold get_expected_score.
  pose proof (Rpower_pos 10 ((b - a) / 400)) as Hp.
  apply Rdiv_lt_0_compat; lra.
Qed.

Lemma expected_grows (a b a' b' : R) :
  a - b < a' - b' -> get_expected_score a b < get_expected_score a' b'.
Proof.
  intros H. unfold get_expected_score.
  pose proof (Rpower_pos 10 ((b - a) / 400)) as Hp.
  pose proof (Rpower_pos 10 ((b' - a') / 400)) as Hp'.
  assert (Hlt : Rpower 10 ((b' - a') / 400) < Rpower 10 ((b - a) / 400))
    by (apply Rpower_lt; lra).
  unfold Rdiv. rewrite !Rmult_1_l.
  apply Rinv_lt_contravar; [|lra].
  apply Rmult_lt_0_compat; lra.
Qed.

Lemma expected_below_one (a b : R) : get_expected_score a b < 1.
Proof.
  pose proof (expected_positive b a).
  pose proof (expected_sum a b).
  lra.
Qed.

(** X1: the expected score lies strictly between 0 and 1, and the two
    expected scores of a pairing add up to 1. *)
Theorem expected_score_range (a b : R) :
  0 < get_expected_score a b < 1
  /\ get_expected_score a b + get_expected_score b a = 1.
Proof.
  pose proof (expected_positive a b).
  pose proof (expected_below_one a b).
  pose proof (expected_sum a b).
  lra.
Qed.

(** X2: the expected score depends on the rating difference only and grows
    with it: a larger lead gives a larger expected score. *)
Theorem expected_score_monotone (a b a' b' : R) :
  (a - b = a' - b' -> get_expected_score a b = get_expected_score a' b')
  /\ (a - b < a' - b' -> get_expected_score a b < get_expected_score a' b').
Proof.
  split; [|apply expected_grows].
  intros H. unfold get_expected_score.
  replace ((b' - a') / 400) with ((b - a) / 400) by lra. reflexivity.
Qed.

(** X3: a decisive update raises the winner by more than 0 and less than
    [K_FACTOR], and lowers the loser by the same amount; a winner rated no
    higher than the loser gains at least half of [K_FACTOR], a winner rated
    no lower gains at most half. *)
Theorem decisive_update_moves (winner_elo loser_elo : R) :
  let '(nw, nl) := update_elo winner_elo loser_elo false in
  winner_elo < nw < winner_elo + K_FACTOR
  /\ nl - loser_elo = - (nw - winner_elo)
  /\ (winner_elo <= loser_elo -> winner_elo + K_FACTOR / 2 <= nw)
  /\ (loser_elo <= winner_elo -> nw <= winner_elo + K_FACTOR / 2).
Proof.
  unfold update_elo, K_FACTOR; cbv zeta.
  pose proof (expected_positive winner_elo loser_elo) as H0.
  pose proof (expected_below_one winner_elo loser_elo) as H1.
  pose proof (expected_level loser_elo) as Hl.
  repeat split; try lra.
  - intros [Hlt|Heq].
    + pose proof (expected_grows winner_elo loser_elo loser_elo loser_elo
                    ltac:(lra)).
      lra.
    + subst. lra.
  - intros [Hlt|Heq].
    + pose proof (expected_grows loser_elo loser_elo winner_elo loser_elo
                    ltac:(lra)).
      lra.
    + subst. lra.
Qed.

(** X4: a draw moves the two ratings by opposite amounts of less than half
    of [K_FACTOR]: the higher rated player loses rating, the lower rated one
    gains, and equal ratings stay as they are. *)
Theorem draw_update_moves (a b : R) :
  let '(na, nb) := update_elo a b true in
  nb - b = - (na - a)
  /\ Rabs (na - a) < K_FACTOR / 2
  /\ (b < a -> na < a /\ b < nb)
  /\ (a < b -> a < na /\ nb < b)
  /\ (a = b -> na = a /\ nb = b).
Proof.
  unfold update_elo, K_FACTOR; cbv zeta.
  pose proof (expected_positive a b) as H0.
  pose proof (expected_below_one a b) as H1.
  pose proof (expected_sum a b) as Hs.
  pose proof (expected_level b) as Hl.
  repeat split; try lra.
  - apply Rabs_def1; lra.
  - pose proof (expected_grows b b a b ltac:(lra)). lra.
  - pose proof (expected_grows b b a b ltac:(lra)). lra.
  - pose proof (expected_grows a b b b ltac:(lra)). lra.
  - pose proof (expected_grows a b b b ltac:(lra)). lra.
  - subst. lra.
  - subst. lra.
Qed.

End EloOrder.

(** ** The scenarios are stores the commands build *)


Lemma season_of_two_reachable : reachable update_elo_level season_of_two.
Proof.
  exact (steps_next _ _ _ noon (CmdStartSeason gold (fun l => l))
           (steps_next _ _ _ noon (CmdSignup 2)
              (steps_next _ _ _ noon (CmdSignup 1)
                 (steps_next _ _ _ noon (CmdRegister 2)
                    (steps_next _ _ _ noon (CmdRegister 1)
                       (steps_refl _ init_db)))))).
Qed.

(** ** Rejections *)

Section RejectionFacts.
Variable update_elo : Q -> Q -> bool -> Q * Q.

(** X5: a report or a cancellation that is turned down changes nothing: on
    an invalid result, a report against oneself, an unregistered player, a
    wrong game number, a missing pairing, a claim that does not complement
    the pending one, a repeated season report, a missing pending report or
    a cancellation with another result, the store is left as it was. *)
Theorem rejections_change_nothing (clk : Clock) (s s' : Store) (author : Z)
    (result : string) (opponent : Z) (game_number : option Z)
    (reply : Reply) :
  is_rejection reply = true ->
  (report_match update_elo clk s author result opponent game_number
     = (s', reply) -> s' = s)
  /\ (cancel_pending_match clk s author result opponent = (s', reply) ->
      s' = s).
Proof.
  intros _. split; intros H.
  - rewrite <- (report_match_store update_elo clk s author result opponent
                  game_number).
    now rewrite H.
  - rewrite <- (cancel_pending_match_store clk s author result opponent).
    now rewrite H.
Qed.

End RejectionFacts.

(** Player 1 reports a win over player 3, who has not registered: the
    report is turned down and the store stays as it is. *)
Lemma rejections_change_nothing_witness :
  snd (report_match update_elo_level noon registered 1 "w" 3 None)
    = NotRegistered
  /\ fst (report_match update_elo_level noon registered 1 "w" 3 None)
     = registered.
Proof.
  split; [reflexivity|].
  apply (proj1 (rejections_change_nothing update_elo_level noon registered
                  (fst (report_match update_elo_level noon registered 1 "w"
                          3 None))
                  1 "w" 3 None NotRegistered eq_refl)).
  reflexivity.
Defined.

(** ** Freeform reports *)

Section FreeformFacts.
Variable update_elo : Q -> Q -> bool -> Q * Q.

(** X6: a freeform report between two registered players ends at the
    lookup of the opponent's pending report: [get_pending_rep] raises for
    the column [opponent_id], the command answers with the error and the
    store stays as it is, so that no report is stored and none is
    confirmed. *)
Theorem freeform_report_ends_in_error (clk : Clock) (s : Store) (author : Z)
    (result : string) (opponent : Z) (game_number : option Z) (res : Res)
    (rd od : Player) (season : Season) :
  parse_result result = Some res ->
  author <> opponent ->
  get_player_data s author = Some rd ->
  get_player_data s opponent = Some od ->
  latest_season (seasons s) = Some season ->
  game_number = None \/ se_active season = false ->
  get_pending_rep clk s opponent author
    = Raise (OperationalError "opponent_id")
  /\ report_match update_elo clk s author result opponent game_number
     = (s, CommandError).
Proof.
  intros Hres Hne Hrd Hod Hse Hfree. split; [reflexivity|].
  unfold report_match. rewrite Hres, Hrd, Hod, Hse.
  replace (author =? opponent) with false
    by (symmetry; now apply Z.eqb_neq).
  destruct Hfree as [->|Ha].
  - apply freeform_report_fails.
  - rewrite Ha. destruct game_number; apply freeform_report_fails.
Qed.

End FreeformFacts.

(** Player 1 reports a win over player 2, both registered, before any
    season has started. *)
Lemma freeform_report_ends_in_error_witness :
  get_pending_rep noon registered 2 1 = Raise (OperationalError "opponent_id")
  /\ report_match update_elo_level noon registered 1 "w" 2 None
     = (registered, CommandError).
Proof.
  apply (freeform_report_ends_in_error update_elo_level noon registered 1 "w"
           2 None ResW (mkPlayer 1 INITIAL_ELO 0 0 0 false)
           (mkPlayer 2 INITIAL_ELO 0 0 0 false) (mkSeason 1 false));
    try reflexivity; [discriminate|now left].
Defined.

(** ** Player rows after an update *)

Lemma get_player_data_update (s : Store) (player_id : Z) (elo : Q)
    (w l d : Z) (x : Z) :
  get_player_data (update_player_stats s player_id elo w l d) x
  = if x =? player_id then
      option_map
        (fun p =>
           mkPlayer (pl_id p) elo (pl_wins p + w) (pl_losses p + l)
             (pl_draws p + d) (pl_signed_up p))
        (get_player_data s x)
    else get_player_data s x.
Proof.
  unfold get_player_data, update_player_stats. cbn [players set_players].
  induction (players s) as [|p t IH]; simpl.
  - now destruct (x =? player_id).
  - destruct (pl_id p =? player_id) eqn:E; simpl.
    + apply Z.eqb_eq in E.
      destruct (pl_id p =? x) eqn:F.
      * apply Z.eqb_eq in F.
        replace (x =? player_id) with true
          by (symmetry; apply Z.eqb_eq; congruence).
        reflexivity.
      * exact IH.
    + destruct (pl_id p =? x) eqn:F; [|exact IH].
      apply Z.eqb_eq in F. subst x. now rewrite E.
Qed.

(** ** The cleanup task and the reads *)




(** ** Cancellations *)

(** X8: a [$cancel] with a valid result against another player ends at the
    lookup of the pending report: [get_pending_rep] raises, nothing catches
    the exception, and the store stays as it is, so that no cancellation
    ever deletes a row. *)
Theorem cancel_ends_in_error (clk : Clock) (s : Store) (author : Z)
    (result : string) (opponent : Z) (res : Res) :
  parse_result result = Some res ->
  author <> opponent ->
  cancel_pending_match clk s author result opponent = (s, CommandError).
Proof.
  intros Hres Hne. unfold cancel_pending_match. rewrite Hres.
  replace (author =? opponent) with false
    by (symmetry; now apply Z.eqb_neq).
  now rewrite get_pending_rep_raises.
Qed.

(** Player 1 cancels a win over player 2. *)
Lemma cancel_ends_in_error_witness :
  cancel_pending_match noon registered 1 "W" 2 = (registered, CommandError).
Proof.
  apply (cancel_ends_in_error noon registered 1 "W" 2 ResW);
    [reflexivity|discriminate].
Defined.

(** ** Primary keys *)

Lemma NoDup_map_filter {A B : Type} (f : A -> B) (g : A -> bool)
    (l : list A) :
  NoDup (map f l) -> NoDup (map f (filter g l)).
Proof.
  induction l as [|x t IH]; simpl; intros H; [constructor|].
  inversion H as [|? ? Hx Ht]; subst.
  destruct (g x); simpl; [|now apply IH].
  constructor; [|now apply IH].
  intros Hin. apply Hx. apply in_map_iff in Hin.
  destruct Hin as (y & Hy & Hin). apply filter_In in Hin.
  apply in_map_iff. exists y. tauto.
Qed.

Lemma Forall_filter {A : Type} (P : A -> Prop) (g : A -> bool) (l : list A) :
  Forall P l -> Forall P (filter g l).
Proof.
  rewrite !Forall_forall. intros H x Hx. apply filter_In in Hx. now apply H.
Qed.

Lemma keys_ok_players (s : Store) (ps : list Player) :
  map pl_id ps = map pl_id (players s) ->
  keys_ok s -> keys_ok (set_players s ps).
Proof.
  intros Hids (H1 & H2 & H3 & H4 & H5).
  unfold keys_ok. cbn. rewrite Hids. tauto.
Qed.

Lemma keys_ok_seasons (s : Store) (ss : list Season) :
  keys_ok s -> keys_ok (set_seasons s ss).
Proof. intros H. exact H. Qed.

Lemma keys_ok_pending_filter (s : Store) (keep : PendingRep -> bool) :
  keys_ok s -> keys_ok (set_pending_reps s (filter keep (pending_reps s))).
Proof.
  intros (H1 & H2 & H3 & H4 & H5). unfold keys_ok. cbn.
  repeat split; trivial; [now apply NoDup_map_filter|now apply Forall_filter].
Qed.

Lemma NoDup_snoc_above (ids : list Z) (seq : Z) :
  NoDup ids -> Forall (fun i => i <= seq) ids -> NoDup (ids ++ [seq + 1]).
Proof.
  intros Hnd Hle. apply NoDup_app; [exact Hnd|repeat constructor; tauto|].
  intros x Hx [<-|[]]. rewrite Forall_forall in Hle.
  specialize (Hle _ Hx). lia.
Qed.

Lemma keys_ok_insert_pairing (season_number : Z) (name : string) (s : Store)
    (pair : Z * Z) :
  keys_ok s -> keys_ok (insert_pairing season_number name s pair).
Proof.
  intros (H1 & H2 & H3 & H4 & H5). unfold keys_ok, insert_pairing. cbn.
  repeat split; trivial.
  - rewrite map_app. simpl. apply NoDup_snoc_above; [exact H4|].
    now rewrite Forall_map.
  - apply Forall_app. split.
    + eapply Forall_impl; [|exact H5]. intros r Hr. cbv beta in *. lia.
    + constructor; [cbn; lia|constructor].
Qed.

Lemma keys_ok_insert_group (shuffle : list Z -> list Z) (season_number : Z)
    (s : Store) (group : string * list Z) :
  keys_ok s -> keys_ok (insert_group shuffle season_number s group).
Proof.
  unfold insert_group.
  generalize (List.length (split_subgroups shuffle (snd group))) as n.
  generalize (enumerate_from 0 (split_subgroups shuffle (snd group))) as subs.
  intros subs n. revert s.
  induction subs as [|sub t IH]; intros s H; simpl; [exact H|].
  apply IH.
  generalize (subgroup_name (fst group) n (fst sub)) as name.
  intros name. revert s H.
  induction (combinations2 (snd sub)) as [|p ps IHp]; intros s H; simpl;
    [exact H|].
  apply IHp. now apply keys_ok_insert_pairing.
Qed.

Lemma keys_ok_generate_pairings (role_ranges : list RoleRange)
    (shuffle : list Z -> list Z) (s : Store) (season_number : Z) :
  keys_ok s ->
  keys_ok (fst (generate_pairings role_ranges shuffle s season_number)).
Proof.
  intros H. unfold generate_pairings.
  destruct (map _ (filter pl_signed_up (players s))); [exact H|].
  destruct (group_players _ _) as [|g groups]; [exact H|].
  cbn [fst]. generalize (g :: groups) as gs. intros gs. revert s H.
  induction gs as [|x t IH]; intros s H; simpl; [exact H|].
  apply IH. now apply keys_ok_insert_group.
Qed.

Lemma find_none_not_in (s : Store) (player_id : Z) :
  get_player_data s player_id = None ->
  ~ In player_id (map pl_id (players s)).
Proof.
  unfold get_player_data. intros H Hin. apply in_map_iff in Hin.
  destruct Hin as (p & Hp & Hin).
  apply (find_none _ _ H) in Hin. apply Z.eqb_neq in Hin. congruence.
Qed.

Section KeysFacts.
Variable update_elo : Q -> Q -> bool -> Q * Q.

Lemma keys_ok_run (clk : Clock) (s : Store) (c : Command) :
  keys_ok s -> keys_ok (run update_elo clk s c).
Proof.
  intros H. destruct c as [a|a|a r o g|a r o|roles shuffle| |]; simpl.
  - unfold register_player.
    destruct (get_player_data s a) eqn:G; [exact H|]. cbn [fst].
    destruct H as (H1 & H2 & H3 & H4 & H5). unfold keys_ok. cbn.
    repeat split; trivial.
    apply (Permutation_NoDup
             (l := map pl_id (mkPlayer a INITIAL_ELO 0 0 0 false :: players s))).
    + apply Permutation_map. symmetry. apply insert_sorted_perm.
    + simpl. constructor; [now apply (find_none_not_in s a)|exact H1].
  - unfold signup_player.
    destruct (get_player_data s a); [|exact H].
    destruct (latest_season (seasons s)) as [se|]; [|exact H].
    destruct (negb (se_active se)); [|exact H]. cbn [fst].
    apply keys_ok_players; [|exact H].
    rewrite map_map. apply map_ext. intros q. now destruct (pl_id q =? a).
  - now rewrite report_match_store.
  - now rewrite cancel_pending_match_store.
  - unfold start_season.
    destruct (latest_season (seasons s)) as [se|]; [|exact H].
    destruct (find _ (seasons s)) as [row|]; [|exact H].
    destruct (se_active row); [exact H|].
    pose proof (keys_ok_generate_pairings roles shuffle s
                  (se_season_number se) H) as G.
    destruct (generate_pairings roles shuffle s (se_season_number se)).
    exact G.
  - unfold end_season.
    destruct (active_season_number s); [|exact H].
    destruct (existsb _ (seasons s)); [exact H|]. cbn [fst].
    apply keys_ok_seasons. apply keys_ok_seasons.
    apply keys_ok_players; [|exact H]. now rewrite map_map.
  - now apply keys_ok_pending_filter.
Qed.

(** X9: the commands keep the primary keys: from a store in which player
    ids, pending report ids and pairing ids are unique and no id is above
    its counter, every store the commands lead to is such a store. *)
Theorem keys_stay_unique (s0 s : Store) :
  keys_ok s0 -> steps update_elo s0 s -> keys_ok s.
Proof.
  intros H0 Hsteps. induction Hsteps as [s|s s' clk c Hsteps IH].
  - exact H0.
  - apply keys_ok_run. now apply IH.
Qed.

End KeysFacts.

Lemma keys_ok_init_db : keys_ok init_db.
Proof. repeat split; constructor. Qed.

Lemma keys_stay_unique_witness : keys_ok season_of_two.
Proof.
  apply (keys_stay_unique update_elo_level init_db season_of_two).
  - exact keys_ok_init_db.
  - exact season_of_two_reachable.
Defined.

(** ** The seasons table *)

Lemma closed_seasons_numbers (n : nat) (x : Season) :
  In x (closed_seasons n) ->
  1 <= se_season_number x <= Z.of_nat n /\ se_active x = false.
Proof.
  unfold closed_seasons. intros H. apply in_map_iff in H.
  destruct H as (k & <- & Hk). apply in_seq in Hk. simpl. lia.
Qed.

Lemma closed_seasons_next (n : nat) :
  closed_seasons (S n) = closed_seasons n ++ [mkSeason (Z.of_nat (S n)) false].
Proof.
  unfold closed_seasons. rewrite seq_S, map_app. reflexivity.
Qed.

Lemma latest_season_last (l : list Season) (x : Season) :
  (forall y, In y l -> se_season_number y < se_season_number x) ->
  latest_season (l ++ [x]) = Some x.
Proof.
  induction l as [|y t IH]; intros H; simpl; [reflexivity|].
  rewrite IH by (intros z Hz; apply H; now right).
  replace (se_season_number y <? se_season_number x) with true; [reflexivity|].
  symmetry. apply Z.ltb_lt. apply H. now left.
Qed.

Lemma find_last {A : Type} (f : A -> bool) (l : list A) (x : A) :
  (forall y, In y l -> f y = false) ->
  find f (l ++ [x]) = if f x then Some x else None.
Proof.
  induction l as [|y t IH]; intros H; simpl; [reflexivity|].
  rewrite (H y) by now left. apply IH. intros z Hz. apply H. now right.
Qed.

Lemma map_unchanged {A : Type} (f : A -> A) (l : list A) :
  (forall y, In y l -> f y = y) -> map f l = l.
Proof.
  induction l as [|y t IH]; intros H; simpl; [reflexivity|].
  rewrite (H y) by now left. f_equal. apply IH. intros z Hz. apply H. now right.
Qed.

Lemma seasons_latest (s : Store) (n : nat) (a : bool) :
  seasons_in_order s n a ->
  latest_season (seasons s) = Some (mkSeason (Z.of_nat (S n)) a).
Proof.
  intros ->. apply latest_season_last. intros y Hy.
  apply closed_seasons_numbers in Hy. simpl. lia.
Qed.

Lemma seasons_active (s : Store) (n : nat) (a : bool) :
  seasons_in_order s n a ->
  active_season_number s = if a then Some (Z.of_nat (S n)) else None.
Proof.
  intros H. unfold active_season_number. rewrite H, find_last.
  - now destruct a.
  - intros y Hy. now apply closed_seasons_numbers in Hy.
Qed.

Lemma seasons_set_active (n : nat) (a flag : bool) (tail : list Season) :
  (forall y, In y tail -> se_season_number y <> Z.of_nat (S n)) ->
  map (fun se =>
         if se_season_number se =? Z.of_nat (S n) then
           mkSeason (se_season_number se) flag
         else se)
    (closed_seasons n ++ mkSeason (Z.of_nat (S n)) a :: tail)
  = closed_seasons n ++ mkSeason (Z.of_nat (S n)) flag :: tail.
Proof.
  intros Htail. rewrite map_app. f_equal.
  - apply map_unchanged. intros y Hy. apply closed_seasons_numbers in Hy.
    replace (se_season_number y =? Z.of_nat (S n)) with false; [reflexivity|].
    symmetry. apply Z.eqb_neq. lia.
  - cbn [map se_season_number]. rewrite Z.eqb_refl. f_equal.
    apply map_unchanged. intros y Hy.
    replace (se_season_number y =? Z.of_nat (S n)) with false; [reflexivity|].
    symmetry. apply Z.eqb_neq. now apply Htail.
Qed.

Lemma generate_pairings_seasons (role_ranges : list RoleRange)
    (shuffle : list Z -> list Z) (s : Store) (season_number : Z) :
  seasons (fst (generate_pairings role_ranges shuffle s season_number))
    = seasons s.
Proof.
  unfold generate_pairings.
  destruct (map _ (filter pl_signed_up (players s))); [reflexivity|].
  destruct (group_players _ _) as [|g groups]; [reflexivity|].
  cbn [fst]. generalize (g :: groups) as gs. intros gs. revert s.
  induction gs as [|x t IH]; intros s; simpl; [reflexivity|].
  rewrite IH. unfold insert_group.
  generalize (List.length (split_subgroups shuffle (snd x))) as k.
  generalize (enumerate_from 0 (split_subgroups shuffle (snd x))) as subs.
  intros subs k. revert s.
  induction subs as [|sub u IHs]; intros s; simpl; [reflexivity|].
  rewrite IHs.
  generalize (subgroup_name (fst x) k (fst sub)) as name. intros name.
  revert s.
  induction (combinations2 (snd sub)) as [|pair0 rest IHp]; intros s; simpl;
    [reflexivity|].
  now rewrite IHp.
Qed.

(** What [start_season] does to a seasons table in that form. *)
Lemma start_season_in_order (role_ranges : list RoleRange)
    (shuffle : list Z -> list Z) (s : Store) (n : nat) (a : bool) :
  seasons_in_order s n a ->
  if a then start_season role_ranges shuffle s = (s, SeasonAlreadyActive)
  else
    (exists generated,
       snd (start_season role_ranges shuffle s) = SeasonStarted generated)
    /\ seasons_in_order (fst (start_season role_ranges shuffle s)) n true.
Proof.
  intros H. pose proof (seasons_latest s n a H) as Hl.
  unfold start_season. rewrite Hl, (latest_season_find _ _ Hl).
  cbn [se_active se_season_number]. destruct a; [reflexivity|].
  pose proof (generate_pairings_seasons role_ranges shuffle s
                (Z.of_nat (S n))) as G.
  destruct (generate_pairings role_ranges shuffle s (Z.of_nat (S n)))
    as [s1 generated].
  cbn [fst snd] in *. split; [now exists generated|].
  unfold seasons_in_order, set_active. cbn [seasons set_seasons].
  rewrite G, H. apply seasons_set_active. intros y [].
Qed.

(** What [end_season] does to a seasons table in that form. *)
Lemma end_season_in_order (s : Store) (n : nat) (a : bool) :
  seasons_in_order s n a ->
  if a then
    snd (end_season s) = SeasonEnded
    /\ seasons_in_order (fst (end_season s)) (S n) false
  else end_season s = (s, NoActiveSeason).
Proof.
  intros H. unfold end_season. rewrite (seasons_active s n a H).
  destruct a; [|reflexivity].
  assert (Hnew : existsb
                   (fun se => se_season_number se =? Z.of_nat (S n) + 1)
                   (seasons s) = false).
  { rewrite H, existsb_app. cbn [existsb se_season_number].
    apply orb_false_iff. split.
    - apply not_true_is_false. intros E. apply existsb_exists in E.
      destruct E as (y & Hy & E). apply closed_seasons_numbers in Hy.
      apply Z.eqb_eq in E. lia.
    - rewrite orb_false_r. apply Z.eqb_neq. lia. }
  rewrite Hnew. cbn [fst snd]. split; [reflexivity|].
  unfold seasons_in_order, set_active. cbn [seasons set_seasons set_players].
  rewrite H, <- app_assoc. cbn [app].
  rewrite seasons_set_active.
  - rewrite closed_seasons_next, <- app_assoc. cbn [app].
    repeat f_equal. lia.
  - intros y [<-|[]]. simpl. lia.
Qed.

Section SeasonFacts.
Variable update_elo : Q -> Q -> bool -> Q * Q.

Lemma run_in_order (clk : Clock) (s : Store) (c : Command) (n : nat)
    (a : bool) :
  seasons_in_order s n a ->
  exists n' a', seasons_in_order (run update_elo clk s c) n' a'.
Proof.
  intros H.
  assert (Hsame : forall s', seasons s' = seasons s ->
            exists n' a', seasons_in_order s' n' a').
  { intros s' E. exists n, a. unfold seasons_in_order. now rewrite E. }
  destruct c as [p|p|p r o g|p r o|roles shuffle| |]; simpl.
  - apply Hsame. unfold register_player. now destruct (get_player_data s p).
  - apply Hsame. unfold signup_player.
    destruct (get_player_data s p); [|reflexivity].
    destruct (latest_season (seasons s)) as [se|]; [|reflexivity].
    now destruct (negb (se_active se)).
  - apply Hsame. now rewrite report_match_store.
  - apply Hsame. now rewrite cancel_pending_match_store.
  - pose proof (start_season_in_order roles shuffle s n a H) as S.
    destruct a.
    + rewrite S. now exists n, true.
    + exists n, true. tauto.
  - pose proof (end_season_in_order s n a H) as E. destruct a.
    + exists (S n), false. tauto.
    + rewrite E. now exists n, false.
  - now apply Hsame.
Qed.

(** X10: on every store the commands lead to from a new database, the
    seasons table holds the seasons 1, 2, ... up to the current one without
    a gap, and every season before the current one is closed: at most one
    season is active, and it is the one with the greatest number. *)
Theorem seasons_stay_in_order (s : Store) :
  reachable update_elo s ->
  exists n last_active,
    seasons_in_order s n last_active
    /\ latest_season (seasons s)
       = Some (mkSeason (Z.of_nat (S n)) last_active)
    /\ filter se_active (seasons s)
       = if last_active then [mkSeason (Z.of_nat (S n)) true] else [].
Proof.
  intros Hreach.
  assert (Hshape : exists n a, seasons_in_order s n a).
  { unfold reachable in Hreach.
    remember init_db as s0 eqn:E0.
    induction Hreach as [s|s s' clk c Hsteps IH].
    - subst. now exists O, false.
    - destruct (IH E0) as (n & a & H). now apply (run_in_order clk s' c n a). }
  destruct Hshape as (n & a & H). exists n, a.
  split; [exact H|]. split; [now apply seasons_latest|].
  rewrite H, filter_app.
  replace (filter se_active (closed_seasons n)) with (@nil Season).
  - now destruct a.
  - symmetry. apply (find_none_filter se_active).
    destruct (find se_active (closed_seasons n)) as [y|] eqn:F; [|reflexivity].
    apply find_some in F. destruct F as [Hy Ha].
    apply closed_seasons_numbers in Hy. destruct Hy as [_ Hy]. congruence.
Qed.

End SeasonFacts.

Lemma second_season_reachable : reachable update_elo_level second_season.
Proof.
  exact (steps_next _ _ _ noon CmdEndSeason
           (steps_next _ _ _ noon (CmdStartSeason [] (fun l => l))
              (steps_refl _ init_db))).
Qed.

(** After [$start_season] and [$end_season] on a new database: season 1
    closed, season 2 open. *)
Lemma seasons_stay_in_order_witness :
  exists n last_active,
    seasons_in_order second_season n last_active
    /\ latest_season (seasons second_season)
       = Some (mkSeason (Z.of_nat (S n)) last_active)
    /\ filter se_active (seasons second_season)
       = if last_active then [mkSeason (Z.of_nat (S n)) true] else [].
Proof.
  apply (seasons_stay_in_order update_elo_level second_season).
  exact second_season_reachable.
Defined.

(** X11: on a seasons table in that form the lifecycle commands alternate.
    While the current season is open, [$end_season] is turned down and
    [$start_season] activates it; while it is active, [$start_season] is
    turned down and [$end_season] closes it and opens the next number. *)
Theorem season_commands_alternate (role_ranges : list RoleRange)
    (shuffle : list Z -> list Z) (s : Store) (n : nat) (a : bool) :
  seasons_in_order s n a ->
  if a then
    start_season role_ranges shuffle s = (s, SeasonAlreadyActive)
    /\ snd (end_season s) = SeasonEnded
    /\ seasons_in_order (fst (end_season s)) (S n) false
  else
    end_season s = (s, NoActiveSeason)
    /\ (exists generated,
          snd (start_season role_ranges shuffle s) = SeasonStarted generated)
    /\ seasons_in_order (fst (start_season role_ranges shuffle s)) n true.
Proof.
  intros H.
  pose proof (start_season_in_order role_ranges shuffle s n a H) as S.
  pose proof (end_season_in_order s n a H) as E.
  destruct a; tauto.
Qed.

Lemma season_commands_alternate_witness :
  end_season init_db = (init_db, NoActiveSeason)
  /\ (exists generated,
        snd (start_season [] (fun l => l) init_db) = SeasonStarted generated)
  /\ seasons_in_order (fst (start_season [] (fun l => l) init_db)) 0 true.
Proof.
  apply (season_commands_alternate [] (fun l => l) init_db 0 false).
  reflexivity.
Defined.

(** ** Registration, signup and the end of a season *)

(** Looking a player up after the INSERT of [register_player]. *)
Lemma find_insert_player (l : list Player) (a x : Z) :
  find (fun p => pl_id p =? a) l = None ->
  find (fun p => pl_id p =? x)
    (insert_sorted id_before (mkPlayer a INITIAL_ELO 0 0 0 false) l)
  = if a =? x then Some (mkPlayer a INITIAL_ELO 0 0 0 false)
    else find (fun p => pl_id p =? x) l.
Proof.
  induction l as [|y t IH]; intros H; [reflexivity|].
  simpl in H. destruct (pl_id y =? a) eqn:E; [discriminate|].
  cbn [insert_sorted]. destruct (id_before _ y); [reflexivity|].
  cbn [find]. destruct (pl_id y =? x) eqn:F.
  - replace (a =? x) with false; [reflexivity|].
    symmetry. apply Z.eqb_neq. apply Z.eqb_eq in F. apply Z.eqb_neq in E.
    congruence.
  - now apply IH.
Qed.

(** X12: registering an unknown player adds a row with the initial rating
    1380, no games and no signup, and leaves every other lookup as it was;
    registering again is turned down and changes nothing. *)
Theorem register_then_lookup (s : Store) (author : Z) :
  get_player_data s author = None ->
  snd (register_player s author) = Registered
  /\ get_player_data (fst (register_player s author)) author
     = Some (mkPlayer author INITIAL_ELO 0 0 0 false)
  /\ (forall x, x <> author ->
        get_player_data (fst (register_player s author)) x
        = get_player_data s x)
  /\ register_player (fst (register_player s author)) author
     = (fst (register_player s author), AlreadyRegistered).
Proof.
  intros H.
  assert (Hnew : get_player_data (fst (register_player s author)) author
                 = Some (mkPlayer author INITIAL_ELO 0 0 0 false)).
  { unfold register_player. rewrite H. unfold get_player_data in *.
    cbn [fst players set_players]. rewrite find_insert_player by exact H.
    now rewrite Z.eqb_refl. }
  split; [unfold register_player; now rewrite H|].
  split; [exact Hnew|]. split.
  - intros x Hx. unfold register_player. rewrite H.
    unfold get_player_data in *. cbn [fst players set_players].
    rewrite find_insert_player by exact H.
    replace (author =? x) with false; [reflexivity|].
    symmetry. apply Z.eqb_neq. congruence.
  - unfold register_player at 1. now rewrite Hnew.
Qed.

Lemma register_then_lookup_witness :
  snd (register_player init_db 1) = Registered
  /\ get_player_data (fst (register_player init_db 1)) 1
     = Some (mkPlayer 1 INITIAL_ELO 0 0 0 false)
  /\ (forall x, x <> 1 ->
        get_player_data (fst (register_player init_db 1)) x
        = get_player_data init_db x)
  /\ register_player (fst (register_player init_db 1)) 1
     = (fst (register_player init_db 1), AlreadyRegistered).
Proof.
  apply (register_then_lookup init_db 1). reflexivity.
Defined.

(** X13: a signup is taken only from a registered player while the current
    season is not active.  It then sets the signup flag of that player and
    nothing else; while the season is active, or for an unregistered
    player, the store stays as it is. *)
Theorem signup_sets_one_flag (s : Store) (author : Z) (season : Season) :
  latest_season (seasons s) = Some season ->
  match get_player_data s author with
  | None => signup_player s author = (s, RegisterFirst)
  | Some rd =>
      if se_active season then signup_player s author = (s, SeasonIsActive)
      else
        snd (signup_player s author) = SignedUp
        /\ get_player_data (fst (signup_player s author)) author
           = Some (signed rd)
        /\ (forall x, x <> author ->
              get_player_data (fst (signup_player s author)) x
              = get_player_data s x)
        /\ seasons (fst (signup_player s author)) = seasons s
        /\ pairings (fst (signup_player s author)) = pairings s
        /\ pending_reps (fst (signup_player s author)) = pending_reps s
  end.
Proof.
  intros Hl. unfold signup_player. rewrite Hl.
  destruct (get_player_data s author) as [rd|] eqn:G; [|reflexivity].
  destruct (se_active season); [reflexivity|].
  cbn [negb fst snd]. repeat split.
  - unfold get_player_data in *. cbn [players set_players].
    induction (players s) as [|p t IH]; [discriminate|].
    simpl in *. destruct (pl_id p =? author) eqn:E.
    + injection G as ->. simpl. now rewrite E.
    + simpl. rewrite E. now apply IH.
  - intros x Hx. unfold get_player_data. cbn [players set_players].
    induction (players s) as [|p t IH]; [reflexivity|].
    simpl. destruct (pl_id p =? author) eqn:E; simpl.
    + apply Z.eqb_eq in E.
      replace (pl_id p =? x) with false by (symmetry; apply Z.eqb_neq; lia).
      exact IH.
    + destruct (pl_id p =? x); [reflexivity|exact IH].
Qed.

Lemma signup_sets_one_flag_witness :
  snd (signup_player registered 1) = SignedUp
  /\ get_player_data (fst (signup_player registered 1)) 1
     = Some (signed (mkPlayer 1 INITIAL_ELO 0 0 0 false))
  /\ (forall x, x <> 1 ->
        get_player_data (fst (signup_player registered 1)) x
        = get_player_data registered x)
  /\ seasons (fst (signup_player registered 1)) = seasons registered
  /\ pairings (fst (signup_player registered 1)) = pairings registered
  /\ pending_reps (fst (signup_player registered 1)) = pending_reps registered.
Proof.
  apply (signup_sets_one_flag registered 1 (mkSeason 1 false)). reflexivity.
Defined.

(** X14: when [$end_season] ends a season, every signup flag is cleared,
    while ids, ratings and tallies, the pairings of all seasons and the
    pending reports stay as they are. *)
Theorem end_season_clears_signups (s s' : Store) :
  end_season s = (s', SeasonEnded) ->
  Forall (fun p => pl_signed_up p = false) (players s')
  /\ map (fun p => (pl_id p, pl_elo p, pl_wins p, pl_losses p, pl_draws p))
       (players s')
     = map (fun p => (pl_id p, pl_elo p, pl_wins p, pl_losses p, pl_draws p))
         (players s)
  /\ pairings s' = pairings s
  /\ pending_reps s' = pending_reps s.
Proof.
  unfold end_season. intros H.
  destruct (active_season_number s); [|discriminate].
  destruct (existsb _ (seasons s)); [discriminate|].
  injection H as <-. cbn. repeat split.
  - apply Forall_map. now apply Forall_forall.
  - now rewrite map_map.
Qed.

Lemma end_season_clears_signups_witness :
  Forall (fun p => pl_signed_up p = false) (players (fst (end_season season_of_two)))
  /\ map (fun p => (pl_id p, pl_elo p, pl_wins p, pl_losses p, pl_draws p))
       (players (fst (end_season season_of_two)))
     = map (fun p => (pl_id p, pl_elo p, pl_wins p, pl_losses p, pl_draws p))
         (players season_of_two)
  /\ pairings (fst (end_season season_of_two)) = pairings season_of_two
  /\ pending_reps (fst (end_season season_of_two)) = pending_reps season_of_two.
Proof.
  apply (end_season_clears_signups season_of_two
           (fst (end_season season_of_two))).
  reflexivity.
Defined.

(** ** Round robin pairs *)

Section PairFacts.
Context {A : Type}.

Lemma combinations2_in (a b : A) (l : list A) :
  In (a, b) (combinations2 l) -> In a l /\ In b l.
Proof.
  induction l as [|x t IH]; simpl; [tauto|].
  intros H. apply in_app_or in H. destruct H as [H|H].
  - apply in_map_iff in H. destruct H as (y & E & Hy).
    injection E as <- <-. tauto.
  - apply IH in H. tauto.
Qed.

Lemma combinations2_length (l : list A) :
  (2 * List.length (combinations2 l)
   = List.length l * (List.length l - 1))%nat.
Proof.
  induction l as [|x t IH]; simpl; [reflexivity|].
  rewrite length_app, length_map. nia.
Qed.

Lemma combinations2_ordered (a b : A) (l : list A) :
  NoDup l -> In (a, b) (combinations2 l) ->
  a <> b /\ ~ In (b, a) (combinations2 l).
Proof.
  induction l as [|x t IH]; simpl; [tauto|].
  intros Hnd H. inversion Hnd as [|? ? Hx Ht]; subst.
  apply in_app_or in H. destruct H as [H|H].
  - apply in_map_iff in H. destruct H as (y & E & Hy).
    injection E as <- <-. split; [congruence|].
    intros H'. apply in_app_or in H'. destruct H' as [H'|H'].
    + apply in_map_iff in H'. destruct H' as (z & E & Hz).
      injection E as <- _. contradiction.
    + apply combinations2_in in H'. tauto.
  - destruct (IH Ht H) as [Hab Hba]. split; [exact Hab|].
    intros H'. apply in_app_or in H'. destruct H' as [H'|H']; [|contradiction].
    apply in_map_iff in H'. destruct H' as (z & E & Hz).
    injection E as <- _. apply combinations2_in in H. tauto.
Qed.

Lemma combinations2_nodup (l : list A) :
  NoDup l -> NoDup (combinations2 l).
Proof.
  induction l as [|x t IH]; simpl; intros Hnd; [constructor|].
  inversion Hnd as [|? ? Hx Ht]; subst.
  apply NoDup_app.
  - clear IH Hx Hnd. induction Ht as [|y u Hy Hu IHu]; simpl; constructor.
    + intros H. apply in_map_iff in H. destruct H as (z & E & Hz).
      injection E as ->. contradiction.
    + exact IHu.
  - now apply IH.
  - intros [a b] H1 H2. apply in_map_iff in H1.
    destruct H1 as (y & E & Hy). injection E as <- <-.
    apply combinations2_in in H2. tauto.
Qed.

Lemma combinations2_complete (a b : A) (l : list A) :
  In a l -> In b l -> a <> b ->
  In (a, b) (combinations2 l) \/ In (b, a) (combinations2 l).
Proof.
  induction l as [|x t IH]; simpl; [tauto|].
  intros [Ha|Ha] [Hb|Hb] Hab; subst.
  - contradiction.
  - left. apply in_or_app. left. now apply in_map.
  - right. apply in_or_app. left. now apply in_map.
  - destruct (IH Ha Hb Hab); [left|right]; apply in_or_app; now right.
Qed.

(** X15: the round robin of a subgroup of [k] distinct players has
    [k * (k - 1) / 2] pairings; each one joins two different players of the
    subgroup, no pairing occurs twice or in both orders, and any two
    different players of the subgroup are paired. *)
Theorem round_robin_pairs_once (l : list A) :
  NoDup l ->
  (2 * List.length (combinations2 l)
   = List.length l * (List.length l - 1))%nat
  /\ NoDup (combinations2 l)
  /\ (forall a b, In (a, b) (combinations2 l) ->
        In a l /\ In b l /\ a <> b /\ ~ In (b, a) (combinations2 l))
  /\ (forall a b, In a l -> In b l -> a <> b ->
        In (a, b) (combinations2 l) \/ In (b, a) (combinations2 l)).
Proof.
  intros Hnd. split; [apply combinations2_length|].
  split; [now apply combinations2_nodup|]. split.
  - intros a b H. pose proof (combinations2_in _ _ _ H).
    pose proof (combinations2_ordered _ _ _ Hnd H). tauto.
  - intros a b. apply combinations2_complete.
Qed.

End PairFacts.

(** Five players: ten pairings. *)
Lemma round_robin_pairs_once_witness :
  (2 * List.length (combinations2 [1; 2; 3; 4; 5])
   = List.length [1; 2; 3; 4; 5] * (List.length [1; 2; 3; 4; 5] - 1))%nat
  /\ NoDup (combinations2 [1; 2; 3; 4; 5])
  /\ (forall a b, In (a, b) (combinations2 [1; 2; 3; 4; 5]) ->
        In a [1; 2; 3; 4; 5] /\ In b [1; 2; 3; 4; 5] /\ a <> b
        /\ ~ In (b, a) (combinations2 [1; 2; 3; 4; 5]))
  /\ (forall a b, In a [1; 2; 3; 4; 5] -> In b [1; 2; 3; 4; 5] -> a <> b ->
        In (a, b) (combinations2 [1; 2; 3; 4; 5])
        \/ In (b, a) (combinations2 [1; 2; 3; 4; 5])).
Proof.
  apply (round_robin_pairs_once [1; 2; 3; 4; 5]).
  repeat (constructor; [simpl; intuition discriminate|]). constructor.
Defined.

(** ** Subgroups *)

Lemma chunks_fuel_concat {A : Type} (fuel size : nat) (l : list A) :
  (0 < size)%nat -> (List.length l <= fuel)%nat ->
  List.concat (chunks_fuel fuel size l) = l
  /\ Forall (fun c => c <> []) (chunks_fuel fuel size l).
Proof.
  intros Hsize. revert l.
  induction fuel as [|fuel IH]; intros l Hl; simpl.
  - destruct l; [split; [reflexivity|constructor]|simpl in Hl; lia].
  - destruct l as [|x t]; [split; [reflexivity|constructor]|].
    destruct (IH (skipn size (x :: t))) as [Hc Hn].
    { rewrite length_skipn. cbn [List.length] in *. lia. }
    split.
    + cbn [List.concat]. rewrite Hc. apply firstn_skipn.
    + constructor; [|exact Hn].
      destruct size; [lia|]. discriminate.
Qed.

(** X16: the subgroups of a tier group are a partition of it: put end to
    end they give the group (as shuffled), so every player of the group is
    in exactly one subgroup; no subgroup of a group with players is empty,
    and none has more than seven players. *)
Theorem subgroups_partition (shuffle : list Z -> list Z) (player_ids : list Z) :
  Permutation (shuffle player_ids) player_ids ->
  Permutation (List.concat (split_subgroups shuffle player_ids)) player_ids
  /\ (player_ids <> [] ->
      Forall (fun c => c <> []) (split_subgroups shuffle player_ids))
  /\ Forall (fun c => (List.length c <= 7)%nat)
       (split_subgroups shuffle player_ids).
Proof.
  intros Hperm. split; [|split; [|apply split_subgroups_at_most_seven]].
  - unfold split_subgroups.
    destruct (7 <? Z.of_nat (List.length player_ids)).
    + unfold chunks.
      destruct (chunks_fuel_concat (List.length (shuffle player_ids))
                  (Z.to_nat (subgroup_size
                               (Z.of_nat (List.length (shuffle player_ids)))))
                  (shuffle player_ids)) as [Hc _].
      * pose proof (subgroup_size_range
                      (Z.of_nat (List.length (shuffle player_ids)))
                      ltac:(lia)). lia.
      * lia.
      * now rewrite Hc.
    + simpl. now rewrite app_nil_r.
  - intros Hne. unfold split_subgroups.
    destruct (7 <? Z.of_nat (List.length player_ids)).
    + unfold chunks. apply chunks_fuel_concat; [|lia].
      pose proof (subgroup_size_range
                    (Z.of_nat (List.length (shuffle player_ids)))
                    ltac:(lia)). lia.
    + constructor; [exact Hne|constructor].
Qed.

Lemma subgroups_partition_witness :
  Permutation (List.concat (split_subgroups (@rev Z) [1; 2; 3; 4; 5; 6; 7; 8; 9]))
    [1; 2; 3; 4; 5; 6; 7; 8; 9]
  /\ ([1; 2; 3; 4; 5; 6; 7; 8; 9] <> [] ->
      Forall (fun c => c <> [])
        (split_subgroups (@rev Z) [1; 2; 3; 4; 5; 6; 7; 8; 9]))
  /\ Forall (fun c => (List.length c <= 7)%nat)
       (split_subgroups (@rev Z) [1; 2; 3; 4; 5; 6; 7; 8; 9]).
Proof.
  apply (subgroups_partition (@rev Z) [1; 2; 3; 4; 5; 6; 7; 8; 9]).
  apply Permutation_sym, Permutation_rev.
Defined.

(** ** What the generator writes *)

Lemma adds_pairings_refl (season_number : Z) (s : Store) :
  adds_pairings season_number s s.
Proof.
  exists []. rewrite app_nil_r. simpl. rewrite Z.add_0_r.
  repeat split; constructor.
Qed.

Lemma adds_pairings_trans (season_number : Z) (s1 s2 s3 : Store) :
  adds_pairings season_number s1 s2 -> adds_pairings season_number s2 s3 ->
  adds_pairings season_number s1 s3.
Proof.
  intros (n1 & P1 & F1 & Q1 & A1 & B1 & C1 & D1)
         (n2 & P2 & F2 & Q2 & A2 & B2 & C2 & D2).
  exists (n1 ++ n2). rewrite P2, P1, <- app_assoc.
  repeat split; try congruence.
  - now apply Forall_app.
  - rewrite Q2, Q1, length_app. lia.
Qed.

Lemma adds_pairings_insert (season_number : Z) (name : string) (s : Store)
    (pair : Z * Z) :
  adds_pairings season_number s (insert_pairing season_number name s pair).
Proof.
  eexists. unfold insert_pairing. cbn.
  split; [reflexivity|]. repeat split.
  repeat constructor.
Qed.

Lemma adds_pairings_group (shuffle : list Z -> list Z) (season_number : Z)
    (s : Store) (group : string * list Z) :
  adds_pairings season_number s (insert_group shuffle season_number s group).
Proof.
  unfold insert_group.
  generalize (List.length (split_subgroups shuffle (snd group))) as n.
  generalize (enumerate_from 0 (split_subgroups shuffle (snd group))) as subs.
  intros subs n. revert s.
  induction subs as [|sub t IH]; intros s; simpl;
    [apply adds_pairings_refl|].
  eapply adds_pairings_trans; [|apply IH].
  generalize (subgroup_name (fst group) n (fst sub)) as name.
  intros name. revert s.
  induction (combinations2 (snd sub)) as [|pair0 rest IHp]; intros s; simpl;
    [apply adds_pairings_refl|].
  eapply adds_pairings_trans; [apply adds_pairings_insert|apply IHp].
Qed.

Lemma generate_pairings_adds (role_ranges : list RoleRange)
    (shuffle : list Z -> list Z) (s : Store) (season_number : Z) :
  adds_pairings season_number s
    (fst (generate_pairings role_ranges shuffle s season_number)).
Proof.
  unfold generate_pairings.
  destruct (map _ (filter pl_signed_up (players s)));
    [apply adds_pairings_refl|].
  destruct (group_players _ _) as [|g groups]; [apply adds_pairings_refl|].
  cbn [fst]. generalize (g :: groups) as gs. intros gs. revert s.
  induction gs as [|x t IH]; intros s; simpl; [apply adds_pairings_refl|].
  eapply adds_pairings_trans; [apply adds_pairings_group|apply IH].
Qed.

(** X17: [generate_pairings] only appends pairing rows: the rows that were
    there stay, every new row belongs to the season it was called for and
    has both results and the game number empty, the id counter advances by
    the number of new rows, and players, pending reports and seasons are
    untouched; when it returns [False] it has appended nothing. *)
Theorem generate_pairings_appends (role_ranges : list RoleRange)
    (shuffle : list Z -> list Z) (s : Store) (season_number : Z) :
  adds_pairings season_number s
    (fst (generate_pairings role_ranges shuffle s season_number))
  /\ (snd (generate_pairings role_ranges shuffle s season_number) = false ->
      fst (generate_pairings role_ranges shuffle s season_number) = s).
Proof.
  split; [apply generate_pairings_adds|apply generate_pairings_failed].
Qed.

(** ** Season reports *)

Section SeasonReportFacts.
Variable update_elo : Q -> Q -> bool -> Q * Q.

(** X18: during an active season a report with the game number 1 or 2,
    between two registered players, ends at the pairing lookup: the SELECT
    names the column [game_number], which [pairings] does not have, so it
    raises; the command answers with the error and the store stays as it
    is.  With another game number the report is turned down before the
    lookup. *)
Theorem season_report_ends_in_error (clk : Clock) (s : Store) (author : Z)
    (result : string) (opponent n : Z) (res : Res) (rd od : Player)
    (season : Season) :
  parse_result result = Some res ->
  author <> opponent ->
  get_player_data s author = Some rd ->
  get_player_data s opponent = Some od ->
  latest_season (seasons s) = Some season ->
  se_active season = true ->
  find_pairing s author opponent n = Raise (OperationalError "game_number")
  /\ report_match update_elo clk s author result opponent (Some n)
     = (s, if (n =? 1) || (n =? 2) then CommandError else InvalidGameNumber).
Proof.
  intros Hres Hne Hrd Hod Hse Ha. split; [reflexivity|].
  unfold report_match. rewrite Hres, Hrd, Hod, Hse, Ha.
  replace (author =? opponent) with false
    by (symmetry; now apply Z.eqb_neq).
  apply season_report_fails.
Qed.

End SeasonReportFacts.

(** Players 1 and 2 are paired in the active season 1; player 1 reports
    game 1 as a win. *)
Lemma season_report_ends_in_error_witness :
  find_pairing season_of_two 1 2 1 = Raise (OperationalError "game_number")
  /\ report_match update_elo_level noon season_of_two 1 "w" 2 (Some 1)
     = (season_of_two, CommandError).
Proof.
  apply (season_report_ends_in_error update_elo_level noon season_of_two 1
           "w" 2 1 ResW (mkPlayer 1 INITIAL_ELO 0 0 0 true)
           (mkPlayer 2 INITIAL_ELO 0 0 0 true) (mkSeason 1 true));
    try reflexivity; discriminate.
Defined.

(** ** Tier groups *)

Lemma groups_append_names (groups : list (string * list Z)) (name : string)
    (player_id : Z) :
  NoDup (map fst groups) ->
  NoDup (map fst (groups_append groups name player_id))
  /\ forall n, In n (map fst (groups_append groups name player_id)) ->
       In n (map fst groups) \/ n = name.
Proof.
  induction groups as [|[n ids] t IH]; simpl; intros Hnd.
  - split; [repeat constructor; tauto|]. intros n [<-|[]]. now right.
  - inversion Hnd as [|? ? Hn Ht]; subst.
    destruct (String.eqb n name) eqn:E; simpl.
    + split; [exact Hnd|]. intros m Hm. now left.
    + destruct (IH Ht) as [IH1 IH2]. split.
      * constructor; [|exact IH1]. intros Hin. apply IH2 in Hin.
        destruct Hin as [Hin| ->]; [contradiction|].
        rewrite String.eqb_refl in E. discriminate.
      * intros m [<-|Hm]; [left; now left|].
        apply IH2 in Hm. tauto.
Qed.

Lemma groups_append_members (groups : list (string * list Z)) (name : string)
    (player_id : Z) :
  Permutation
    (List.concat (map snd (groups_append groups name player_id)))
    (player_id :: List.concat (map snd groups)).
Proof.
  induction groups as [|[n ids] t IH]; simpl; [reflexivity|].
  destruct (String.eqb n name); simpl.
  - rewrite <- app_assoc. simpl.
    apply Permutation_sym, Permutation_middle.
  - rewrite IH. apply Permutation_sym, Permutation_middle.
Qed.

Lemma groups_append_group (groups : list (string * list Z)) (name : string)
    (player_id : Z) (n : string) (ids : list Z) (x : Z) :
  In (n, ids) (groups_append groups name player_id) -> In x ids ->
  (exists ids0, In (n, ids0) groups /\ In x ids0)
  \/ (n = name /\ x = player_id).
Proof.
  induction groups as [|[m ids0] t IH]; simpl.
  - intros [E|[]] Hx. injection E as <- <-. destruct Hx as [<-|[]]. now right.
  - destruct (String.eqb m name) eqn:E; simpl.
    + apply String.eqb_eq in E. subst m.
      intros [E|Hin] Hx.
      * injection E as <- <-. apply in_app_or in Hx.
        destruct Hx as [Hx|[<-|[]]]; [left; exists ids0; tauto|now right].
      * left. exists ids. tauto.
    + intros [E'|Hin] Hx.
      * injection E' as <- <-. left. eexists. split; [now left|exact Hx].
      * destruct (IH Hin Hx) as [(i0 & H1 & H2)|H]; [|now right].
        left. exists i0. tauto.
Qed.

Lemma groups_append_nonempty (groups : list (string * list Z)) (name : string)
    (player_id : Z) :
  Forall (fun g => snd g <> []) groups ->
  Forall (fun g => snd g <> []) (groups_append groups name player_id).
Proof.
  induction groups as [|[n ids] t IH]; simpl; intros H.
  - repeat constructor. discriminate.
  - inversion H as [|? ? Hg Ht]; subst.
    destruct (String.eqb n name); constructor; trivial.
    + simpl. now destruct ids.
    + now apply IH.
Qed.

Lemma group_players_fold (role_ranges : list RoleRange)
    (signed : list (Z * Q)) (groups : list (string * list Z)) :
  NoDup (map fst groups) ->
  Forall (fun g => snd g <> []) groups ->
  NoDup (map fst (fold_left (group_step role_ranges) signed groups))
  /\ Forall (fun g => snd g <> [])
       (fold_left (group_step role_ranges) signed groups)
  /\ Permutation
       (List.concat
          (map snd (fold_left (group_step role_ranges) signed groups)))
       (List.concat (map snd groups)
          ++ map fst (filter (in_some_role role_ranges) signed))
  /\ forall n ids x,
       In (n, ids) (fold_left (group_step role_ranges) signed groups) ->
       In x ids ->
       (exists ids0, In (n, ids0) groups /\ In x ids0)
       \/ exists elo r,
            In (x, elo) signed /\ find_role role_ranges elo = Some r
            /\ rr_name r = n.
Proof.
  revert groups.
  induction signed as [|[pid elo] t IH]; intros groups Hnd Hne.
  - simpl. repeat split; trivial.
    + now rewrite app_nil_r.
    + intros n ids x H1 H2. left. exists ids. tauto.
  - cbn [fold_left filter].
    unfold in_some_role at 1, group_step at 2 4 6 8. cbn [fst snd].
    destruct (find_role role_ranges elo) as [r|] eqn:F.
    + destruct (groups_append_names groups (rr_name r) pid Hnd) as [Hnd' _].
      pose proof (groups_append_nonempty groups (rr_name r) pid Hne) as Hne'.
      destruct (IH _ Hnd' Hne') as (I1 & I2 & I3 & I4).
      repeat split; trivial.
      * rewrite I3, groups_append_members. cbn [map fst].
        apply Permutation_middle.
      * intros n ids x H1 H2.
        destruct (I4 n ids x H1 H2) as [(ids0 & G1 & G2)|(e & r' & G1 & G2 & G3)].
        -- destruct (groups_append_group _ _ _ _ _ _ G1 G2)
             as [G|[-> ->]]; [now left|].
           right. exists elo, r. repeat split; trivial. now left.
        -- right. exists e, r'. repeat split; trivial. now right.
    + destruct (IH _ Hnd Hne) as (I1 & I2 & I3 & I4).
      repeat split; trivial.
      intros n ids x H1 H2.
      destruct (I4 n ids x H1 H2) as [G|(e & r' & G1 & G2 & G3)];
        [now left|].
      right. exists e, r'. repeat split; trivial. now right.
Qed.

(** X19: the tier groups are a partition of the signed-up players whose
    rating lies in some role range: group names are distinct, no group is
    empty, the groups together hold exactly those players, once each, and a
    player is in the group named after the first range, in the order given,
    that holds the rating.  [generate_pairings] gives the ranges by
    descending minimum. *)
Theorem tier_groups_partition (role_ranges : list RoleRange)
    (signed : list (Z * Q)) :
  NoDup (map fst (group_players role_ranges signed))
  /\ Forall (fun g => snd g <> []) (group_players role_ranges signed)
  /\ Permutation
       (List.concat (map snd (group_players role_ranges signed)))
       (map fst (filter (in_some_role role_ranges) signed))
  /\ (forall n ids x,
        In (n, ids) (group_players role_ranges signed) -> In x ids ->
        exists elo r,
          In (x, elo) signed /\ find_role role_ranges elo = Some r
          /\ rr_name r = n)
  /\ StronglySorted (fun a b => rr_min b <= rr_min a)
       (sort_by min_before role_ranges).
Proof.
  pose proof (group_players_fold role_ranges signed [] (NoDup_nil _)
                (Forall_nil _)) as (H1 & H2 & H3 & H4).
  change (group_players role_ranges signed)
    with (fold_left (group_step role_ranges) signed []).
  repeat split; trivial.
  - intros n ids x G1 G2.
    destruct (H4 n ids x G1 G2) as [(ids0 & [] & _)|G]. exact G.
  - eapply sorted_weaken; [|apply sort_by_sorted].
    + intros a b H. unfold min_before in H. now apply Z.leb_le.
    + intros a b H. unfold min_before in *.
      apply Z.leb_gt in H. apply Z.leb_le. lia.
    + intros a b c Hab Hbc. unfold min_before in *.
      apply Z.leb_le in Hab, Hbc. apply Z.leb_le. lia.
Qed.

(** ** The leaderboard's arguments and rank *)

Section ArgumentFacts.
Variable unicode_decimal : Z -> option Z.
Variable unicode_digit : Z -> option Z.

(** What the argument loop has made of [(limit, role_name)] when it ends
    without an exception. *)
Lemma parse_loop_returns (args : list str) (limit : Z)
    (role_name : option str) (limit' : Z) (role_name' : option str) :
  parse_loop unicode_decimal unicode_digit (limit, role_name) args
    = Return (limit', role_name') ->
  role_name'
  = match role_name, join_words (filter (not_a_number unicode_digit) args) with
    | None, words => words
    | Some r, None => Some r
    | Some r, Some words => Some (r ++ [32] ++ words)
    end
  /\ (1 <= limit <= 25 -> 1 <= limit' <= 25)
  /\ (forallb (not_a_number unicode_digit) args = true -> limit' = limit).
Proof.
  revert limit role_name.
  induction args as [|a t IH]; intros limit role_name H; cbn [parse_loop] in H.
  - injection H as <- <-. split; [now destruct role_name|]. now split.
  - unfold parse_step in H. cbn [filter forallb].
    change (not_a_number unicode_digit a)
      with (negb (isdigit unicode_digit a)).
    destruct (isdigit unicode_digit a); cbn [negb andb fst snd] in *.
    + destruct (int unicode_decimal a) as [v|e]; [|discriminate].
      destruct (IH _ _ H) as (Hr & Hl & _).
      split; [exact Hr|]. split; [intros _; apply Hl; lia|discriminate].
    + destruct (IH _ _ H) as (Hr & Hl & Hn).
      split; [|now split].
      rewrite Hr. cbn [join_words].
      destruct role_name as [r|];
        destruct (join_words (filter (not_a_number unicode_digit) t)); try reflexivity.
      now rewrite <- !app_assoc.
Qed.

(** X20: when the argument loop of [show_leaderboard] ends without an
    exception, the role name is made of the arguments that are no digit
    strings, in their order, with one space between them, and there is none
    when every argument is a digit string; the size lies between 1 and 25:
    it is 10 when no argument is a digit string, and otherwise the number
    the last digit string writes, raised to 1 or lowered to 25 when
    outside. *)
Theorem leaderboard_arguments (args : list str) (limit : Z)
    (role_name : option str) :
  parse_args unicode_decimal unicode_digit args = Return (limit, role_name) ->
  role_name = join_words (filter (not_a_number unicode_digit) args)
  /\ 1 <= limit <= 25
  /\ (forallb (not_a_number unicode_digit) args = true -> limit = 10)
  /\ (forall pre n post,
        args = pre ++ n :: post ->
        isdigit unicode_digit n = true ->
        forallb (not_a_number unicode_digit) post = true ->
        exists v,
          int unicode_decimal n = Return v
          /\ limit = Z.min (Z.max 1 v) 25).
Proof.
  unfold parse_args. intros H.
  destruct (parse_loop_returns _ _ _ _ _ H) as (Hr & Hl & Hn).
  split; [exact Hr|]. split; [apply Hl; lia|]. split; [exact Hn|].
  intros pre n post -> Hd Hpost. clear Hr Hl Hn.
  revert H. generalize (10, @None str) as st.
  induction pre as [|a pre IH]; intros st H; cbn [app parse_loop] in H.
  - unfold parse_step in H. rewrite Hd in H.
    destruct (int unicode_decimal n) as [v|e]; [|discriminate].
    exists v. split; [reflexivity|].
    destruct (parse_loop_returns _ _ _ _ _ H) as (_ & _ & Hsame).
    now apply Hsame.
  - destruct (parse_step unicode_decimal unicode_digit st a) as [st'|e];
      [|discriminate].
    now apply (IH st').
Qed.

End ArgumentFacts.

(** [$leaderboard] with the Arabic-Indic digit three and the role name
    "Gold": a leaderboard of three. *)
Lemma leaderboard_arguments_witness :
  Some [71; 111; 108; 100]
  = join_words
      (filter (not_a_number excerpt_digit) [[1635]; [71; 111; 108; 100]])
  /\ 1 <= 3 <= 25
  /\ (forallb (not_a_number excerpt_digit) [[1635]; [71; 111; 108; 100]]
      = true -> 3 = 10)
  /\ (forall pre n post,
        [[1635]; [71; 111; 108; 100]] = pre ++ n :: post ->
        isdigit excerpt_digit n = true ->
        forallb (not_a_number excerpt_digit) post = true ->
        exists v,
          int excerpt_decimal n = Return v /\ 3 = Z.min (Z.max 1 v) 25).
Proof.
  apply (leaderboard_arguments excerpt_decimal excerpt_digit
           [[1635]; [71; 111; 108; 100]] 3 (Some [71; 111; 108; 100])).
  reflexivity.
Defined.

Lemma filter_length_perm {A : Type} (f : A -> bool) (l l' : list A) :
  Permutation l l' ->
  List.length (filter f l) = List.length (filter f l').
Proof.
  intros H. induction H as [|x l l' H IH|x y l|l l' l'' H1 IH1 H2 IH2];
    simpl.
  - reflexivity.
  - destruct (f x); simpl; now rewrite IH.
  - destruct (f x), (f y); reflexivity.
  - congruence.
Qed.

(** In a list in descending order of rating, the rows rated above [x] are
    the first ones, and the rest is rated [x] or less. *)
Lemma above_first (x : Q) (l : list Player) :
  StronglySorted (fun a b => (pl_elo b <= pl_elo a)%Q) l ->
  let above := fun p => negb (Qle_bool (pl_elo p) x) in
  firstn (List.length (filter above l)) l = filter above l
  /\ Forall (fun p => (pl_elo p <= x)%Q)
       (skipn (List.length (filter above l)) l).
Proof.
  intros Hs above. induction Hs as [|y t Ht IH Hy].
  - split; [reflexivity|constructor].
  - cbn [filter]. destruct (above y) eqn:E0; cbn [List.length firstn skipn].
    + destruct IH as [IH1 IH2]. split; [now rewrite IH1|exact IH2].
    + assert (E : (pl_elo y <= x)%Q).
      { unfold above in E0. apply negb_false_iff in E0.
        now apply Qle_bool_iff. }
      assert (Hnone : filter above t = []).
      { apply (find_none_filter above).
        destruct (find above t) as [z|] eqn:F; [|reflexivity].
        apply find_some in F. destruct F as [Hz Ha].
        rewrite Forall_forall in Hy. specialize (Hy z Hz).
        unfold above in Ha. apply negb_true_iff in Ha.
        assert (Hzx : (pl_elo z <= x)%Q) by now apply Qle_trans with (pl_elo y).
        apply Qle_bool_iff in Hzx. congruence. }
      rewrite Hnone. simpl. split; [reflexivity|].
      constructor; [exact E|].
      rewrite Forall_forall in *. intros z Hz.
      apply Qle_trans with (pl_elo y); auto.
Qed.

Lemma elo_sorted (l : list Player) :
  StronglySorted (fun a b => (pl_elo b <= pl_elo a)%Q) (sort_by elo_before l).
Proof.
  eapply sorted_weaken;
    [|apply sort_by_sorted; [apply elo_before_total|apply elo_before_trans]].
  intros a b H. now apply Qle_bool_iff.
Qed.

Lemma skipn_sorted {A : Type} (R : A -> A -> Prop) (n : nat) (l : list A) :
  StronglySorted R l -> StronglySorted R (skipn n l).
Proof.
  revert l. induction n as [|n IH]; intros l Hs; [exact Hs|].
  destruct l as [|x t]; [constructor|]. simpl. apply IH.
  now inversion Hs.
Qed.

(** X21: for a player among the rows the leaderboard ranges over, the rank
    it shows is one more than the number of rows rated above the player; in
    the descending order, the rows before that rank are rated above the
    player, the row at that rank has the player's rating, and that row is
    one of the three rows shown around the player. *)
Theorem rank_row_has_user_rating (s : Store) (member_ids : option (list Z))
    (u : Player) :
  In u (leaderboard_rows s member_ids) ->
  let sorted := sort_by elo_before (leaderboard_rows s member_ids) in
  let rank := user_rank s member_ids (pl_elo u) in
  1 <= rank <= Z.of_nat (List.length sorted)
  /\ Forall (fun p => (pl_elo u < pl_elo p)%Q)
       (firstn (Z.to_nat (rank - 1)) sorted)
  /\ exists p,
       nth_error sorted (Z.to_nat (rank - 1)) = Some p
       /\ (pl_elo p == pl_elo u)%Q
       /\ In p (user_surrounding s member_ids rank).
Proof.
  intros Hu sorted rank.
  set (above := fun p => negb (Qle_bool (pl_elo p) (pl_elo u))).
  set (k := List.length (filter above sorted)).
  assert (Hperm : Permutation sorted (leaderboard_rows s member_ids))
    by apply sort_by_perm.
  assert (Hrank : rank = Z.of_nat k + 1).
  { unfold rank, user_rank, k. fold above.
    now rewrite (filter_length_perm above _ _ Hperm). }
  assert (Hk : Z.to_nat (rank - 1) = k) by lia.
  destruct (above_first (pl_elo u) sorted (elo_sorted _)) as [Hfirst Hrest].
  fold above in Hfirst, Hrest. fold k in Hfirst, Hrest.
  assert (Hin : In u sorted) by now apply (Permutation_in _ (Permutation_sym Hperm)).
  assert (Hlow : In u (skipn k sorted)).
  { rewrite <- (firstn_skipn k sorted) in Hin. apply in_app_or in Hin.
    destruct Hin as [Hin|Hin]; [|exact Hin].
    rewrite Hfirst in Hin. apply filter_In in Hin. destruct Hin as [_ Ha].
    unfold above in Ha. apply negb_true_iff in Ha.
    assert (Hle : (pl_elo u <= pl_elo u)%Q) by apply Qle_refl.
    apply Qle_bool_iff in Hle. congruence. }
  destruct (skipn k sorted) as [|h rest] eqn:Hsk; [destruct Hlow|].
  assert (Hlen : (k < List.length sorted)%nat).
  { assert (List.length (skipn k sorted) = S (List.length rest))
      by now rewrite Hsk.
    rewrite length_skipn in H. lia. }
  assert (Hnth : nth_error sorted k = Some h).
  { rewrite <- (Nat.add_0_r k), <- nth_error_skipn, Hsk. reflexivity. }
  assert (Hh : (pl_elo h == pl_elo u)%Q).
  { apply Qle_antisym.
    - now inversion Hrest.
    - pose proof (skipn_sorted _ k _ (elo_sorted (leaderboard_rows s member_ids)))
        as Hs.
      fold sorted in Hs. rewrite Hsk in Hs.
      destruct Hlow as [<-|Hlow]; [apply Qle_refl|].
      inversion Hs as [|? ? _ Hall]; subst.
      rewrite Forall_forall in Hall. now apply Hall. }
  split; [lia|]. split.
  - rewrite Hk, Hfirst. apply Forall_forall. intros p Hp.
    apply filter_In in Hp. destruct Hp as [_ Ha]. unfold above in Ha.
    apply negb_true_iff in Ha. apply Qnot_le_lt. intros Hle.
    apply Qle_bool_iff in Hle. congruence.
  - exists h. rewrite Hk. split; [exact Hnth|]. split; [exact Hh|].
    unfold user_surrounding. fold sorted.
    apply (nth_error_In _ (k - Z.to_nat (Z.max 0 (rank - 2)))).
    rewrite nth_error_firstn.
    replace (k - Z.to_nat (Z.max 0 (rank - 2)) <? 3)%nat with true
      by (symmetry; apply Nat.ltb_lt; lia).
    rewrite nth_error_skipn.
    replace (Z.to_nat (Z.max 0 (rank - 2))
             + (k - Z.to_nat (Z.max 0 (rank - 2))))%nat with k by lia.
    exact Hnth.
Qed.

Lemma rank_row_has_user_rating_witness :
  let u := mkPlayer 2 INITIAL_ELO 0 0 0 true in
  let sorted := sort_by elo_before (leaderboard_rows season_of_two None) in
  let rank := user_rank season_of_two None (pl_elo u) in
  1 <= rank <= Z.of_nat (List.length sorted)
  /\ Forall (fun p => (pl_elo u < pl_elo p)%Q)
       (firstn (Z.to_nat (rank - 1)) sorted)
  /\ exists p,
       nth_error sorted (Z.to_nat (rank - 1)) = Some p
       /\ (pl_elo p == pl_elo u)%Q
       /\ In p (user_surrounding season_of_two None rank).
Proof.
  apply (rank_row_has_user_rating season_of_two None
           (mkPlayer 2 INITIAL_ELO 0 0 0 true)).
  vm_compute. right. left. reflexivity.
Defined.

(** ** Pages of pairings *)

Section PageFacts.
Context {Char : Type}.

Lemma page_step_inv (entries : list (list Char))
    (st : list (@Embed Char) * option (@Embed Char) * nat)
    (entry : list Char) :
  pages_inv entries st -> pages_inv (entries ++ [entry]) (page_step st entry).
Proof.
  destruct st as [[embeds current] char_count].
  unfold pages_inv, page_step.
  intros (Hc & Hn & Hf & Hl & Hcur).
  assert (Hweak : forall pages,
            Forall (fun e =>
                      (List.length (description e) <= MAX_EMBED_CHARS)%nat
                      \/ In (description e) entries) pages ->
            Forall (fun e =>
                      (List.length (description e) <= MAX_EMBED_CHARS)%nat
                      \/ In (description e) (entries ++ [entry])) pages).
  { intros pages H. eapply Forall_impl; [|exact H].
    intros e [H1|H1]; [now left|right]. apply in_or_app. now left. }
  destruct current as [e|].
  - destruct (MAX_EMBED_CHARS <? char_count + List.length entry)%nat eqn:B;
      cbn [page_num description].
    + repeat split.
      * rewrite !map_app, !concat_app in *. cbn [map List.concat] in *.
        rewrite !app_nil_r in *. now rewrite Hc.
      * rewrite map_app, Hn. cbn [map page_num].
        rewrite (length_app (embeds ++ [e])). cbn [List.length].
        rewrite (Nat.add_1_r (List.length (embeds ++ [e]))), seq_S.
        reflexivity.
      * apply Forall_app. split; [now apply Hweak|].
        constructor; [|constructor]. right. apply in_or_app. right. now left.
      * rewrite !length_app in *. cbn [List.length] in *. lia.
    + apply Nat.ltb_ge in B. repeat split.
      * rewrite !map_app, !concat_app in *. cbn [map List.concat description] in *.
        rewrite !app_nil_r in *. rewrite <- Hc. now rewrite app_assoc.
      * rewrite !map_app, !length_app in *. exact Hn.
      * apply Forall_app in Hf. destruct Hf as [Hf _].
        apply Forall_app. split; [now apply Hweak|].
        constructor; [|constructor]. left. cbn [description].
        rewrite length_app. lia.
      * rewrite !length_app in *. cbn [List.length] in *. lia.
      * rewrite length_app. lia.
  - destruct Hcur as [-> ->]. cbn. repeat split.
    + constructor; [|constructor]. right. now left.
    + lia.
Qed.

Lemma fold_pages_inv (entries : list (list Char)) :
  pages_inv entries (fold_left page_step entries ([], None, O)).
Proof.
  induction entries as [|entry entries IH] using rev_ind.
  - cbn. repeat split; constructor.
  - rewrite fold_left_app. cbn [fold_left]. now apply page_step_inv.
Qed.

(** X22: the pages of [show_pairings] hold the entries of the pairings in
    their order and nothing else; they are numbered 1, 2, ... in the order
    they are shown; a page has at most 4096 characters unless it is a
    single entry; there are no more pages than entries, and at least one
    when there is an entry. *)
Theorem pages_hold_entries (entries : list (list Char)) :
  List.concat (map description (paginate entries)) = List.concat entries
  /\ map page_num (paginate entries) = seq 1 (List.length (paginate entries))
  /\ Forall (fun e =>
               (List.length (description e) <= MAX_EMBED_CHARS)%nat
               \/ In (description e) entries)
       (paginate entries)
  /\ (List.length (paginate entries) <= List.length entries)%nat
  /\ (entries <> [] -> paginate entries <> []).
Proof.
  pose proof (fold_pages_inv entries) as H. unfold paginate.
  destruct (fold_left page_step entries ([], None, O))
    as [[embeds current] char_count].
  unfold pages_inv in H. destruct H as (Hc & Hn & Hf & Hl & Hcur).
  destruct current as [e|].
  - repeat split; trivial. intros _ E.
    destruct embeds; discriminate.
  - rewrite app_nil_r in *. repeat split; trivial.
    intros Hne. now destruct Hcur.
Qed.

End PageFacts.

(** ** The paginator *)

(** X23: while the page shown is one of the pages, a press on a button that
    is not disabled leaves it one of the pages: the previous button is
    disabled on the first page and the next button on the last; a press by
    anyone but the author of the command changes nothing. *)
Theorem paginator_stays_in_range (author user : Z) (v : Paginator)
    (b : Button) :
  0 <= current_page v < n_pages v ->
  disabled v b = false ->
  0 <= current_page (press author user v b) < n_pages (press author user v b)
  /\ n_pages (press author user v b) = n_pages v
  /\ (user <> author -> press author user v b = v).
Proof.
  intros Hr Hd. unfold press.
  destruct (user =? author) eqn:E; cbn [negb].
  - apply Z.eqb_eq in E.
    destruct b; unfold disabled in Hd; apply Z.eqb_neq in Hd; cbn;
      repeat split; try lia; congruence.
  - repeat split; lia.
Qed.

Lemma paginator_stays_in_range_witness :
  0 <= current_page (press 1 1 (mkPaginator 0 3) NextButton)
    < n_pages (press 1 1 (mkPaginator 0 3) NextButton)
  /\ n_pages (press 1 1 (mkPaginator 0 3) NextButton)
     = n_pages (mkPaginator 0 3)
  /\ (1 <> 1 -> press 1 1 (mkPaginator 0 3) NextButton = mkPaginator 0 3).
Proof.
  apply (paginator_stays_in_range 1 1 (mkPaginator 0 3) NextButton).
  - simpl. lia.
  - reflexivity.
Defined.

(** ** Claimed results *)

Lemma lower_one_char (s : string) (c : ascii) :
  lower s = String c EmptyString ->
  exists c0, s = String c0 EmptyString /\ lower_ascii c0 = c.
Proof.
  destruct s as [|c0 [|c1 t]]; simpl; try discriminate.
  intros H. injection H as <-. now exists c0.
Qed.

Lemma lower_ascii_letter (c0 : ascii) :
  (lower_ascii c0 = "w"%char -> c0 = "w"%char \/ c0 = "W"%char)
  /\ (lower_ascii c0 = "l"%char -> c0 = "l"%char \/ c0 = "L"%char)
  /\ (lower_ascii c0 = "d"%char -> c0 = "d"%char \/ c0 = "D"%char).
Proof.
  destruct c0 as [[] [] [] [] [] [] [] []]; vm_compute;
    repeat split; intros H; try discriminate; auto.
Qed.

(** X24: a claimed result is accepted exactly when it is one of the
    letters w, l and d, in either case; it stands for a win, a loss or a
    draw accordingly. *)
Theorem parse_result_letters (result : string) (res : Res) :
  parse_result result = Some res <->
  match res with
  | ResW => result = "w"%string \/ result = "W"%string
  | ResL => result = "l"%string \/ result = "L"%string
  | ResD => result = "d"%string \/ result = "D"%string
  end.
Proof.
  split.
  - unfold parse_result.
    destruct (String.eqb (lower result) "w") eqn:Ew;
      [|destruct (String.eqb (lower result) "l") eqn:El;
        [|destruct (String.eqb (lower result) "d") eqn:Ed]];
      intros H; try discriminate; injection H as <-.
    + apply String.eqb_eq in Ew. apply lower_one_char in Ew.
      destruct Ew as (c0 & -> & Hc).
      destruct (proj1 (lower_ascii_letter c0) Hc) as [-> | ->]; auto.
    + apply String.eqb_eq in El. apply lower_one_char in El.
      destruct El as (c0 & -> & Hc).
      destruct (proj1 (proj2 (lower_ascii_letter c0)) Hc) as [-> | ->]; auto.
    + apply String.eqb_eq in Ed. apply lower_one_char in Ed.
      destruct Ed as (c0 & -> & Hc).
      destruct (proj2 (proj2 (lower_ascii_letter c0)) Hc) as [-> | ->]; auto.
  - destruct res; intros [-> | ->]; reflexivity.
Qed.

(** ** Settlement *)

Section SettleFacts.
Variable update_elo : Q -> Q -> bool -> Q * Q.

(** X25: settling a pairing rates both games from the ratings the two
    players had before it and gives each player the mean of the two
    results; a game is rated with the draw flag of [update_elo] set when
    its score is 1/2 or 1, and unset, with player 1 in the winner's place,
    when it is 0.  Each player gets two more games, player 2's wins being
    player 1's losses and the other way round, and nobody else changes. *)
Theorem settle_rates_from_old_ratings (s s' : Store)
    (author p1_id p2_id : Z) (game1 game2 : Q) (d1 d2 : Player) :
  p1_id <> p2_id ->
  get_player_data s p1_id = Some d1 ->
  get_player_data s p2_id = Some d2 ->
  settle update_elo s author p1_id p2_id game1 game2 = Some s' ->
  exists d1' d2',
    get_player_data s' p1_id = Some d1'
    /\ get_player_data s' p2_id = Some d2'
    /\ pl_elo d1'
       = ((fst (game_elo update_elo (pl_elo d1) (pl_elo d2) game1)
           + fst (game_elo update_elo (pl_elo d1) (pl_elo d2) game2)) / 2)%Q
    /\ pl_elo d2'
       = ((snd (game_elo update_elo (pl_elo d1) (pl_elo d2) game1)
           + snd (game_elo update_elo (pl_elo d1) (pl_elo d2) game2)) / 2)%Q
    /\ (forall game,
          game_elo update_elo (pl_elo d1) (pl_elo d2) game
          = update_elo (pl_elo d1) (pl_elo d2)
              (Qeq_bool game (1 # 2) || Qeq_bool game 1))
    /\ pl_wins d1' + pl_losses d1' + pl_draws d1'
       = pl_wins d1 + pl_losses d1 + pl_draws d1 + 2
    /\ pl_wins d2' - pl_wins d2 = pl_losses d1' - pl_losses d1
    /\ pl_losses d2' - pl_losses d2 = pl_wins d1' - pl_wins d1
    /\ pl_draws d2' - pl_draws d2 = pl_draws d1' - pl_draws d1
    /\ forall x, x <> p1_id -> x <> p2_id ->
         get_player_data s' x = get_player_data s x.
Proof.
  intros Hne H1 H2 H. unfold settle in H. rewrite H1, H2 in H.
  destruct (game_elo update_elo (pl_elo d1) (pl_elo d2) game1) as [a1 a2].
  destruct (game_elo update_elo (pl_elo d1) (pl_elo d2) game2) as [b1 b2].
  injection H as <-.
  assert (E12 : (p1_id =? p2_id) = false) by now apply Z.eqb_neq.
  assert (E21 : (p2_id =? p1_id) = false) by (apply Z.eqb_neq; congruence).
  set (pw := count_if
               (fun r => Qeq_bool r 1 && (p1_id =? author)
                         || Qeq_bool r 0 && (p2_id =? author))
               [game1; game2]).
  set (pd := count_if (fun r => Qeq_bool r (1 # 2)) [game1; game2]).
  exists (mkPlayer (pl_id d1) ((a1 + b1) / 2)%Q (pl_wins d1 + pw)
            (pl_losses d1 + (2 - pw - pd)) (pl_draws d1 + pd)
            (pl_signed_up d1)),
         (mkPlayer (pl_id d2) ((a2 + b2) / 2)%Q (pl_wins d2 + (2 - pw - pd))
            (pl_losses d2 + pw) (pl_draws d2 + pd) (pl_signed_up d2)).
  split; [rewrite !get_player_data_update, E12, Z.eqb_refl, H1; reflexivity|].
  split; [rewrite !get_player_data_update, E21, Z.eqb_refl, H2; reflexivity|].
  cbn [pl_elo pl_wins pl_losses pl_draws fst snd].
  repeat split; try lia.
  - intros game. unfold game_elo.
    destruct (Qeq_bool game (1 # 2)) eqn:E; [reflexivity|].
    now destruct (Qeq_bool game 1).
  - intros x Hx1 Hx2. rewrite !get_player_data_update.
    apply Z.eqb_neq in Hx1, Hx2. now rewrite Hx1, Hx2.
Qed.

End SettleFacts.

Lemma settle_rates_from_old_ratings_witness :
  exists d1' d2',
    get_player_data settled_draws 1 = Some d1'
    /\ get_player_data settled_draws 2 = Some d2'
    /\ pl_wins d1' + pl_losses d1' + pl_draws d1' = 0 + 0 + 0 + 2
    /\ pl_draws d2' - 0 = pl_draws d1' - 0.
Proof.
  destruct (settle_rates_from_old_ratings update_elo_level registered
              settled_draws 1 1 2 (1 # 2) (1 # 2)
              (mkPlayer 1 INITIAL_ELO 0 0 0 false)
              (mkPlayer 2 INITIAL_ELO 0 0 0 false))
    as (d1' & d2' & G1 & G2 & _ & _ & _ & T1 & _ & _ & T2 & _).
  - discriminate.
  - reflexivity.
  - reflexivity.
  - reflexivity.
  - exists d1', d2'. repeat split; assumption.
Defined.

(** ** One tier *)

Lemma insert_pairings_rows (season_number : Z) (name : string)
    (pairs : list (Z * Z)) (s : Store) :
  map pairing_of (pairings (fold_left (insert_pairing season_number name) pairs s))
  = map pairing_of (pairings s)
    ++ map (fun pr => (fst pr, snd pr, name, season_number)) pairs.
Proof.
  revert s. induction pairs as [|pr t IH]; intros s; simpl.
  - now rewrite app_nil_r.
  - rewrite IH. unfold insert_pairing. cbn [pairings].
    rewrite map_app, <- app_assoc. reflexivity.
Qed.

Lemma group_one_tier (r : RoleRange) (signed : list (Z * Q))
    (acc : list Z) :
  Forall (fun row => in_range r (snd row) = true) signed ->
  fold_left (group_step [r]) signed [(rr_name r, acc)]
  = [(rr_name r, acc ++ map fst signed)].
Proof.
  revert acc. induction signed as [|[pid elo] t IH]; intros acc H; simpl.
  - now rewrite app_nil_r.
  - inversion H as [|? ? Hin Ht]; subst. cbn [snd] in Hin.
    unfold group_step at 2, find_role. cbn [find fst snd].
    fold (in_range r elo). rewrite Hin. cbn [groups_append].
    rewrite String.eqb_refl, IH by exact Ht.
    now rewrite <- app_assoc.
Qed.

(** X27: with one role range that holds the rating of every signed-up
    player, and between one and seven signups, [generate_pairings] succeeds
    and appends exactly the round robin of the signed-up players, in the
    order of the players table: one row for each two of them, all in one
    group named after the role, for the season asked for. *)
Theorem one_tier_round_robin (r : RoleRange) (shuffle : list Z -> list Z)
    (s : Store) (season_number : Z) :
  filter pl_signed_up (players s) <> [] ->
  (List.length (filter pl_signed_up (players s)) <= 7)%nat ->
  Forall (fun p => in_range r (pl_elo p) = true)
    (filter pl_signed_up (players s)) ->
  snd (generate_pairings [r] shuffle s season_number) = true
  /\ map pairing_of
       (pairings (fst (generate_pairings [r] shuffle s season_number)))
     = map pairing_of (pairings s)
       ++ map (fun pr => (fst pr, snd pr, rr_name r, season_number))
            (combinations2 (map pl_id (filter pl_signed_up (players s)))).
Proof.
  intros Hne Hlen Hin. unfold generate_pairings.
  destruct (filter pl_signed_up (players s)) as [|p0 rest] eqn:F;
    [contradiction|].
  cbn [map sort_by fold_right insert_sorted].
  assert (G : group_players [r]
                ((pl_id p0, pl_elo p0)
                   :: map (fun p => (pl_id p, pl_elo p)) rest)
              = [(rr_name r, pl_id p0 :: map pl_id rest)]).
  { change (group_players [r] ((pl_id p0, pl_elo p0)
              :: map (fun p => (pl_id p, pl_elo p)) rest))
      with (fold_left (group_step [r])
              (map (fun p => (pl_id p, pl_elo p)) rest)
              (group_step [r] [] (pl_id p0, pl_elo p0))).
    inversion Hin as [|? ? H0 Hrest]; subst.
    unfold group_step at 2, find_role. cbn [find fst snd].
    fold (in_range r (pl_elo p0)). rewrite H0. cbn [groups_append].
    rewrite group_one_tier
      by (apply Forall_map; eapply Forall_impl; [|exact Hrest]; now intros q).
    now rewrite map_map. }
  rewrite G. cbn [fold_left fst snd]. split; [reflexivity|].
  unfold insert_group. cbn [fst snd].
  rewrite split_subgroups_small
    by (cbn [List.length] in *; rewrite length_map; lia).
  cbn [enumerate_from List.length fold_left fst snd].
  unfold subgroup_name. cbn [Nat.eqb].
  apply insert_pairings_rows.
Qed.

(** Players 1 and 2, signed up, in the role [gold]: one pairing. *)
Lemma one_tier_round_robin_witness :
  snd (generate_pairings gold (fun l => l) signed_up_two 1) = true
  /\ map pairing_of
       (pairings (fst (generate_pairings gold (fun l => l) signed_up_two 1)))
     = map pairing_of (pairings signed_up_two)
       ++ map (fun pr => (fst pr, snd pr, "Gold"%string, 1))
            (combinations2
               (map pl_id (filter pl_signed_up (players signed_up_two)))).
Proof.
  apply (one_tier_round_robin (mkRoleRange "Gold" 1000 2000) (fun l => l)
           signed_up_two 1).
  - discriminate.
  - simpl. lia.
  - repeat constructor.
Defined.

(** ** Tallies *)

Lemma tallies_ok_same (s s' : Store) :
  players s' = players s -> tallies_ok s -> tallies_ok s'.
Proof. unfold tallies_ok. now intros ->. Qed.

Section TallyFacts.
Variable update_elo : Q -> Q -> bool -> Q * Q.

Lemma tallies_ok_run (clk : Clock) (s : Store) (c : Command) :
  tallies_ok s -> tallies_ok (run update_elo clk s c).
Proof.
  intros H. destruct c as [a|a|a r o g|a r o|roles shuffle| |]; simpl.
  - unfold register_player.
    destruct (get_player_data s a); [exact H|]. cbn [fst].
    unfold tallies_ok in *. cbn [players set_players].
    eapply Permutation_Forall.
    + symmetry. apply insert_sorted_perm.
    + constructor; [cbn; lia|exact H].
  - unfold signup_player.
    destruct (get_player_data s a); [|exact H].
    destruct (latest_season (seasons s)) as [se|]; [|exact H].
    destruct (negb (se_active se)); [|exact H]. cbn [fst].
    unfold tallies_ok in *. cbn [players set_players]. apply Forall_map.
    eapply Forall_impl; [|exact H]. intros q Hq. cbv beta.
    now destruct (pl_id q =? a).
  - now rewrite report_match_store.
  - now rewrite cancel_pending_match_store.
  - apply (tallies_ok_same s); [|exact H]. unfold start_season.
    destruct (latest_season (seasons s)) as [se|]; [|reflexivity].
    destruct (find _ (seasons s)) as [row|]; [|reflexivity].
    destruct (se_active row); [reflexivity|].
    pose proof (generate_pairings_adds roles shuffle s
                  (se_season_number se)) as G.
    destruct (generate_pairings roles shuffle s (se_season_number se))
      as [s1 generated].
    cbn [fst] in *. destruct G as (new & _ & _ & _ & P & _). exact P.
  - unfold end_season.
    destruct (active_season_number s); [|exact H].
    destruct (existsb _ (seasons s)); [exact H|]. cbn [fst].
    unfold tallies_ok in *. cbn. apply Forall_map.
    eapply Forall_impl; [|exact H]. now intros q Hq.
  - exact H.
Qed.

(** X28: the commands never make a tally negative: from a store where the
    wins, losses and draws of every player are zero or more, every store
    they lead to is such a store. *)
Theorem tallies_stay_nonnegative (s0 s : Store) :
  tallies_ok s0 -> steps update_elo s0 s -> tallies_ok s.
Proof.
  intros H0 Hsteps. induction Hsteps as [s|s s' clk c Hsteps IH].
  - exact H0.
  - apply tallies_ok_run. now apply IH.
Qed.

End TallyFacts.

Lemma tallies_stay_nonnegative_witness : tallies_ok season_of_two.
Proof.
  apply (tallies_stay_nonnegative update_elo_level init_db season_of_two).
  - constructor.
  - exact season_of_two_reachable.
Defined.

(** X29: for a registered player whose tallies are not negative, [$stats]
    shows the rating, the three tallies and their sum; it shows a win rate
    exactly when a win or a loss is recorded, namely the wins as a
    percentage of all games, between 0 and 100, and it never divides by
    zero. *)
Theorem show_stats_win_rate (s : Store) (target : Z) (data : Player) :
  tallies_ok s ->
  get_player_data s target = Some data ->
  exists win_rate,
    show_stats s target
    = Stats (pl_elo data) (pl_wins data) (pl_losses data) (pl_draws data)
        (pl_wins data + pl_losses data + pl_draws data) win_rate
    /\ match win_rate with
       | None => pl_wins data = 0 /\ pl_losses data = 0
       | Some rate =>
           0 < pl_wins data + pl_losses data
           /\ (rate * inject_Z (pl_wins data + pl_losses data + pl_draws data)
               == 100 * inject_Z (pl_wins data))%Q
           /\ (0 <= rate <= 100)%Q
       end.
Proof.
  intros Hk Hd.
  assert (Hdata : 0 <= pl_wins data /\ 0 <= pl_losses data
                  /\ 0 <= pl_draws data).
  { unfold tallies_ok in Hk. rewrite Forall_forall in Hk. apply Hk.
    unfold get_player_data in Hd. now apply find_some in Hd. }
  unfold show_stats. rewrite Hd. cbv zeta.
  destruct (0 <? pl_wins data + pl_losses data) eqn:E.
  - apply Z.ltb_lt in E.
    replace (pl_wins data + pl_losses data + pl_draws data =? 0) with false
      by (symmetry; apply Z.eqb_neq; lia).
    eexists. split; [reflexivity|].
    set (w := pl_wins data) in *.
    set (t := pl_wins data + pl_losses data + pl_draws data) in *.
    assert (Ht : 0 < t) by (unfold t, w in *; lia).
    assert (Hwt : w <= t) by (unfold t, w in *; lia).
    assert (Hw0 : 0 <= w) by (unfold w; lia).
    assert (Htpos : (0 < inject_Z t)%Q).
    { change 0%Q with (inject_Z 0). now rewrite <- Zlt_Qlt. }
    assert (Htq : ~ (inject_Z t == 0)%Q).
    { intros H0. rewrite H0 in Htpos. discriminate. }
    split; [unfold w; lia|]. split.
    + field. exact Htq.
    + assert (Hq : (0 <= inject_Z w / inject_Z t <= 1)%Q).
      { split.
        - apply Qle_shift_div_l; [exact Htpos|].
          rewrite Qmult_0_l. change 0%Q with (inject_Z 0).
          now rewrite <- Zle_Qle.
        - apply Qle_shift_div_r; [exact Htpos|].
          rewrite Qmult_1_l. now rewrite <- Zle_Qle. }
      destruct Hq as [Hq0 Hq1]. split.
      * apply Qmult_le_0_compat; [exact Hq0|discriminate].
      * setoid_replace (100 : Q) with (1 * 100)%Q at 2 by reflexivity.
        apply Qmult_le_r; [reflexivity|exact Hq1].
  - apply Z.ltb_ge in E. exists None. split; [reflexivity|]. lia.
Qed.

Lemma show_stats_win_rate_witness :
  exists win_rate,
    show_stats season_of_two 1
    = Stats INITIAL_ELO 0 0 0 (0 + 0 + 0) win_rate
    /\ match win_rate with
       | None => 0 = 0 /\ 0 = 0
       | Some rate =>
           0 < 0 + 0
           /\ (rate * inject_Z (0 + 0 + 0) == 100 * inject_Z 0)%Q
           /\ (0 <= rate <= 100)%Q
       end.
Proof.
  apply (show_stats_win_rate season_of_two 1
           (mkPlayer 1 INITIAL_ELO 0 0 0 true)).
  - repeat constructor; cbn; lia.
  - reflexivity.
Defined.

(** * Reports on the database the bot creates *)

(** ** What no command writes *)

Section RunFacts.
Variable update_elo : Q -> Q -> bool -> Q * Q.

(** No command adds a pending report, records a game or rates a player. *)
Lemma run_nothing_reported (clk : Clock) (s : Store) (c : Command) :
  nothing_reported s -> nothing_reported (run update_elo clk s c).
Proof.
  intros Hs. pose proof Hs as (Hp & Hr & Hu).
  destruct c as [a|a|a r o g|a r o|roles shuffle| |]; simpl.
  - unfold register_player. destruct (get_player_data s a); [exact Hs|].
    cbn [fst]. split; [exact Hp|]. split; [exact Hr|].
    cbn [players set_players]. eapply Permutation_Forall.
    + symmetry. apply insert_sorted_perm.
    + constructor; [now repeat split|exact Hu].
  - unfold signup_player. destruct (get_player_data s a); [|exact Hs].
    destruct (latest_season (seasons s)) as [se|]; [|exact Hs].
    destruct (negb (se_active se)); [|exact Hs]. cbn [fst].
    split; [exact Hp|]. split; [exact Hr|].
    cbn [players set_players]. apply Forall_map.
    eapply Forall_impl; [|exact Hu]. intros q Hq. cbv beta.
    now destruct (pl_id q =? a).
  - now rewrite report_match_store.
  - now rewrite cancel_pending_match_store.
  - unfold start_season.
    destruct (latest_season (seasons s)) as [se|]; [|exact Hs].
    destruct (find _ (seasons s)) as [row|]; [|exact Hs].
    destruct (se_active row); [exact Hs|].
    pose proof (generate_pairings_adds roles shuffle s
                  (se_season_number se)) as G.
    destruct (generate_pairings roles shuffle s (se_season_number se))
      as [s1 generated].
    cbn [fst] in *.
    destruct G as (new & Hpa & Hfresh & _ & Hpl & Hpe & _ & _).
    unfold nothing_reported.
    cbn [set_active set_seasons pending_reps pairings players].
    rewrite Hpa, Hpl, Hpe. split; [exact Hp|]. split; [|exact Hu].
    apply Forall_app. split; [exact Hr|].
    eapply Forall_impl; [|exact Hfresh]. intros q (H1 & H2 & _). now split.
  - unfold end_season. destruct (active_season_number s); [|exact Hs].
    destruct (existsb _ (seasons s)); [exact Hs|]. cbn [fst].
    split; [exact Hp|]. split; [exact Hr|].
    cbn. apply Forall_map. eapply Forall_impl; [|exact Hu]. now intros q Hq.
  - unfold clean_old_pending_matches. split; [|now split].
    cbn [pending_reps set_pending_reps]. now rewrite Hp.
Qed.

Lemma reachable_nothing_reported (s : Store) :
  reachable update_elo s -> nothing_reported s.
Proof.
  unfold reachable. intros Hsteps. remember init_db as s0 eqn:E0.
  induction Hsteps as [s|s s' clk c Hsteps IH].
  - subst. repeat split; constructor.
  - apply run_nothing_reported. now apply IH.
Qed.





(** X26: the commands never change a rating or a tally: on every store
    they lead to from a new database, each player has the initial rating
    1380 and no win, loss or draw. *)
Theorem ratings_stay_initial (s : Store) :
  reachable update_elo s -> Forall unrated (players s).
Proof.
  intros Hreach. now destruct (reachable_nothing_reported s Hreach) as (_ & _ & Hu).
Qed.

End RunFacts.




Lemma ratings_stay_initial_witness : Forall unrated (players season_of_two).
Proof.
  apply (ratings_stay_initial update_elo_level season_of_two).
  exact season_of_two_reachable.
Defined.

(** ** The rows at the top of the leaderboard *)

Lemma sorted_app_order {A : Type} (R : A -> A -> Prop) (l1 l2 : list A) :
  StronglySorted R (l1 ++ l2) ->
  forall a b, In a l1 -> In b l2 -> R a b.
Proof.
  induction l1 as [|x t IH]; intros Hs a b Ha Hb; [destruct Ha|].
  simpl in Hs. inversion Hs as [|? ? Ht Hx]; subst.
  destruct Ha as [<-|Ha].
  - rewrite Forall_forall in Hx. apply Hx. apply in_or_app. now right.
  - now apply IH.
Qed.

(** X30: the rows [show_leaderboard] lists at the top are as many as the
    size allows, or all the rows it ranges over when they are fewer; they
    are in descending order of rating, and every row left out is rated no
    higher than every row listed. *)
Theorem top_players_are_highest_rated (s : Store)
    (member_ids : option (list Z)) (limit : Z) :
  List.length (top_players s member_ids limit)
  = Nat.min (Z.to_nat limit) (List.length (leaderboard_rows s member_ids))
  /\ StronglySorted (fun a b => (pl_elo b <= pl_elo a)%Q)
       (top_players s member_ids limit)
  /\ exists rest,
       Permutation (top_players s member_ids limit ++ rest)
         (leaderboard_rows s member_ids)
       /\ forall a b,
            In a (top_players s member_ids limit) -> In b rest ->
            (pl_elo b <= pl_elo a)%Q.
Proof.
  assert (Hsorted : StronglySorted (fun a b => (pl_elo b <= pl_elo a)%Q)
                      (sort_by elo_before (leaderboard_rows s member_ids))).
  { eapply sorted_weaken;
      [|apply sort_by_sorted; [apply elo_before_total|apply elo_before_trans]].
    intros a b H. now apply Qle_bool_iff. }
  change (top_players s member_ids limit)
    with (firstn (Z.to_nat limit)
            (sort_by elo_before (leaderboard_rows s member_ids))).
  split; [|split].
  - rewrite length_firstn.
    now rewrite (Permutation_length (sort_by_perm elo_before _)).
  - now apply firstn_sorted.
  - exists (skipn (Z.to_nat limit)
              (sort_by elo_before (leaderboard_rows s member_ids))).
    split.
    + rewrite firstn_skipn. apply sort_by_perm.
    + apply sorted_app_order. now rewrite firstn_skipn.
Qed.
